(** * Adafruit_AMG88xx: a shallow embedding of the driver and its properties

    The driver of [Adafruit_AMG88xx.cpp] is embedded function by function.
    Fixed-width integers are [Z] with the wrap-around written out, [float]
    and [double] are IEEE binary32 and binary64 values ([spec_float] with the
    Standard Library's correctly rounded operations), arrays are lists
    accessed by index with the out-of-range case made explicit, and the I2C
    adapter with the sensor behind it is an explicit state that every bus
    operation threads through and logs to. *)

From Stdlib Require Import ZArith List Bool Lia String.
From Stdlib Require Import Floats.SpecFloat.
From stdpp Require Import base list.
Import ListNotations.

Local Open Scope Z_scope.

(** ** Fixed-width integers *)

Module Int.

(** Conversion to [uint8_t] and [uint16_t]: reduction modulo 2^8, 2^16. *)
Definition uint8 (z : Z) : Z := z mod 256.
Definition uint16 (z : Z) : Z := z mod 65536.

(** Conversion to [int16_t]: the two's complement reading of the low
    sixteen bits. *)
Definition int16 (z : Z) : Z := (z + 32768) mod 65536 - 32768.

(** Arduino's [min(a,b)] macro, [((a)<(b)?(a):(b))]. *)
Definition min (a b : Z) : Z := if a <? b then a else b.

(** Arduino's [constrain(amt,low,high)] macro,
    [((amt)<(low)?(low):((amt)>(high)?(high):(amt)))]. *)
Definition constrain (amt low high : Z) : Z :=
  if amt <? low then low else if high <? amt then high else amt.

End Int.

(** ** Floating point *)

Module F.

(** [float] is IEEE binary32, [double] is IEEE binary64; both are values
    of [spec_float], told apart by the precision of the operation that
    produced them. *)
Abbreviation float := spec_float (only parsing).
Abbreviation double := spec_float (only parsing).

Definition round_to (prec emax : Z) (x : spec_float) : spec_float :=
  match x with
  | S754_finite s m e => binary_round prec emax s m e
  | _ => x
  end.

(** Integer to [float] and to [double] (round to nearest even). *)
Definition float_of_int (z : Z) : float := binary_normalize 24 128 z 0 false.
Definition double_of_int (z : Z) : double := binary_normalize 53 1024 z 0 false.

(** [float] to [double] (exact) and [double] to [float] (rounds). *)
Definition double_of_float (x : float) : double := round_to 53 1024 x.
Definition float_of_double (x : double) : float := round_to 24 128 x.

(** [0 - x] for an [x] converted from an unsigned integer.  Such an [x] is
    never negative zero, and the compiler reduces the subtraction from the
    constant zero to the change of sign [-x] (gcc folds it when it reads the
    expression, at every optimisation level).  At [x = 0] the program
    therefore returns negative zero, where the subtraction carried out in
    IEEE arithmetic would return positive zero; for every other [x] the two
    agree. *)
Definition zero_minus : float -> float := SFopp.
Definition dmul : double -> double -> double := SFmul 53 1024.
Definition ddiv : double -> double -> double := SFdiv 53 1024.

(** The integer part of a finite value, rounding toward zero. *)
Definition trunc (x : spec_float) : option Z :=
  match x with
  | S754_zero _ => Some 0
  | S754_finite s m e =>
      Some (cond_Zopp s (if 0 <=? e then Zpos m * 2 ^ e else Zpos m / 2 ^ (- e)))
  | _ => None
  end.

(** [double] to an [int] of [bits] bits: the truncated value when it is
    representable; otherwise the conversion is undefined ([None]). *)
Definition int_of_double (bits : Z) (x : double) : option Z :=
  match trunc x with
  | Some z => if (- 2 ^ (bits - 1) <=? z) && (z <? 2 ^ (bits - 1)) then Some z else None
  | None => None
  end.

(** The exact value of [x] in units of [2^-k], when [x] is finite and a
    multiple of that unit.  Used to read results back as numbers. *)
Definition in_units (k : Z) (x : spec_float) : option Z :=
  match x with
  | S754_zero _ => Some 0
  | S754_finite s m e =>
      let sh := e + k in
      if 0 <=? sh then Some (cond_Zopp s (Zpos m * 2 ^ sh))
      else if Zpos m mod 2 ^ (- sh) =? 0 then Some (cond_Zopp s (Zpos m / 2 ^ (- sh)))
      else None
  | _ => None
  end.

Definition pos_zero : spec_float := S754_zero false.

End F.

(** ** Constants of the header *)

(** Modelled from the spec: the register addresses, command values and scale
    factors of [Adafruit_AMG88xx.h] (section 6 of the specification). *)
Definition AMG88xx_PCTL : Z := 0x00.
Definition AMG88xx_RST : Z := 0x01.
Definition AMG88xx_FPSC : Z := 0x02.
Definition AMG88xx_INTC : Z := 0x03.
Definition AMG88xx_STAT : Z := 0x04.
Definition AMG88xx_SCLR : Z := 0x05.
Definition AMG88xx_AVE : Z := 0x07.
Definition AMG88xx_INTHL : Z := 0x08.
Definition AMG88xx_INTHH : Z := 0x09.
Definition AMG88xx_INTLL : Z := 0x0A.
Definition AMG88xx_INTLH : Z := 0x0B.
Definition AMG88xx_IHYSL : Z := 0x0C.
Definition AMG88xx_IHYSH : Z := 0x0D.
Definition AMG88xx_TTHL : Z := 0x0E.
Definition AMG88xx_INT_OFFSET : Z := 0x10.
Definition AMG88xx_PIXEL_OFFSET : Z := 0x80.

Definition AMG88xx_NORMAL_MODE : Z := 0x00.
Definition AMG88xx_FLAG_RESET : Z := 0x30.
Definition AMG88xx_INITIAL_RESET : Z := 0x3F.
Definition AMG88xx_FPS_10 : Z := 0x00.
Definition AMG88xx_FPS_1 : Z := 0x01.
Definition AMG88xx_DIFFERENCE : Z := 0x00.
Definition AMG88xx_ABSOLUTE_VALUE : Z := 0x01.

Definition AMG88xx_PIXEL_ARRAY_SIZE : Z := 64.

(** Modelled from the spec: [AMG88xx_PIXEL_TEMP_CONVERSION] is the [double]
    literal [.25] and [AMG88xx_THERMISTOR_CONVERSION] the literal [.0625]. *)
Definition AMG88xx_PIXEL_TEMP_CONVERSION : F.double := binary_normalize 53 1024 1 (-2) false.
Definition AMG88xx_THERMISTOR_CONVERSION : F.double := binary_normalize 53 1024 1 (-4) false.

(** ** Numeric codec *)

(** [float signedMag12ToFloat(uint16_t val)]:
    [absVal = val & 0x7FF; return (val & 0x800) ? 0 - (float)absVal : (float)absVal]. *)
Definition signedMag12ToFloat (val : Z) : F.float :=
  let absVal := Int.uint16 (Z.land val 0x7FF) in
  if negb (Z.land val 0x800 =? 0)
  then F.zero_minus (F.float_of_int absVal)
  else F.float_of_int absVal.

(** [float int12ToFloat(uint16_t val)]:
    [int16_t sVal = (val << 4); return sVal >> 4]. *)
Definition int12ToFloat (val : Z) : F.float :=
  let sVal := Int.int16 (Z.shiftl val 4) in
  F.float_of_int (Z.shiftr sVal 4).

(** ** Mirrored registers *)

(** Modelled from the spec: the bit-field structs of [Adafruit_AMG88xx.h]
    (the table of section 4.1).  A one-bit field is a [bool]; a wider field
    is a [Z] that an assignment reduces to the width of the field.  Each
    struct has its [get()], which packs the fields into the register byte. *)

(** Assignment to a bit-field of one, four and eight bits. *)
Definition bit1 (v : Z) : bool := Z.odd v.
Definition bits4 (v : Z) : Z := Z.land v 0x0F.
Definition bits8 (v : Z) : Z := Z.land v 0xFF.

Record pctl := { PCTL : Z }.
Definition pctl_get (r : pctl) : Z := PCTL r.

Record rst := { RST : Z }.
Definition rst_get (r : rst) : Z := RST r.

Record fpsc := { FPS : bool }.
Definition fpsc_get (r : fpsc) : Z := Z.land (Z.b2z (FPS r)) 0x01.

Record intc := { INTEN : bool; INTMOD : bool }.
Definition intc_get (r : intc) : Z :=
  Z.land (Z.lor (Z.shiftl (Z.b2z (INTMOD r)) 1) (Z.b2z (INTEN r))) 0x03.

Record ave := { MAMOD : bool }.
Definition ave_get (r : ave) : Z := Z.shiftl (Z.b2z (MAMOD r)) 5.

(** [inthl], [intll], [ihysl]: one field of eight bits;
    [inthh], [intlh], [ihysh]: one field of four bits. *)
Record lvl_lo := { LVL8 : Z }.
Definition lvl_lo_get (r : lvl_lo) : Z := LVL8 r.

Record lvl_hi := { LVL4 : Z }.
Definition lvl_hi_get (r : lvl_hi) : Z := LVL4 r.

(** The data members of the driver object. *)
Record Driver := {
  _pctl : pctl;
  _rst : rst;
  _fpsc : fpsc;
  _intc : intc;
  _ave : ave;
  _inthl : lvl_lo;
  _inthh : lvl_hi;
  _intll : lvl_lo;
  _intlh : lvl_hi;
  _ihysl : lvl_lo;
  _ihysh : lvl_hi
}.

Definition set_pctl (v : pctl) (d : Driver) : Driver :=
  {| _pctl := v; _rst := _rst d; _fpsc := _fpsc d; _intc := _intc d; _ave := _ave d;
     _inthl := _inthl d; _inthh := _inthh d; _intll := _intll d; _intlh := _intlh d;
     _ihysl := _ihysl d; _ihysh := _ihysh d |}.
Definition set_rst (v : rst) (d : Driver) : Driver :=
  {| _pctl := _pctl d; _rst := v; _fpsc := _fpsc d; _intc := _intc d; _ave := _ave d;
     _inthl := _inthl d; _inthh := _inthh d; _intll := _intll d; _intlh := _intlh d;
     _ihysl := _ihysl d; _ihysh := _ihysh d |}.
Definition set_fpsc (v : fpsc) (d : Driver) : Driver :=
  {| _pctl := _pctl d; _rst := _rst d; _fpsc := v; _intc := _intc d; _ave := _ave d;
     _inthl := _inthl d; _inthh := _inthh d; _intll := _intll d; _intlh := _intlh d;
     _ihysl := _ihysl d; _ihysh := _ihysh d |}.
Definition set_intc (v : intc) (d : Driver) : Driver :=
  {| _pctl := _pctl d; _rst := _rst d; _fpsc := _fpsc d; _intc := v; _ave := _ave d;
     _inthl := _inthl d; _inthh := _inthh d; _intll := _intll d; _intlh := _intlh d;
     _ihysl := _ihysl d; _ihysh := _ihysh d |}.
Definition set_ave (v : ave) (d : Driver) : Driver :=
  {| _pctl := _pctl d; _rst := _rst d; _fpsc := _fpsc d; _intc := _intc d; _ave := v;
     _inthl := _inthl d; _inthh := _inthh d; _intll := _intll d; _intlh := _intlh d;
     _ihysl := _ihysl d; _ihysh := _ihysh d |}.
Definition set_inth (lo : lvl_lo) (hi : lvl_hi) (d : Driver) : Driver :=
  {| _pctl := _pctl d; _rst := _rst d; _fpsc := _fpsc d; _intc := _intc d; _ave := _ave d;
     _inthl := lo; _inthh := hi; _intll := _intll d; _intlh := _intlh d;
     _ihysl := _ihysl d; _ihysh := _ihysh d |}.
Definition set_intl (lo : lvl_lo) (hi : lvl_hi) (d : Driver) : Driver :=
  {| _pctl := _pctl d; _rst := _rst d; _fpsc := _fpsc d; _intc := _intc d; _ave := _ave d;
     _inthl := _inthl d; _inthh := _inthh d; _intll := lo; _intlh := hi;
     _ihysl := _ihysl d; _ihysh := _ihysh d |}.
Definition set_ihys (lo : lvl_lo) (hi : lvl_hi) (d : Driver) : Driver :=
  {| _pctl := _pctl d; _rst := _rst d; _fpsc := _fpsc d; _intc := _intc d; _ave := _ave d;
     _inthl := _inthl d; _inthh := _inthh d; _intll := _intll d; _intlh := _intlh d;
     _ihysl := lo; _ihysh := hi |}.

(** A driver object with static storage: every member is zero. *)
Definition zero_driver : Driver :=
  {| _pctl := {| PCTL := 0 |}; _rst := {| RST := 0 |}; _fpsc := {| FPS := false |};
     _intc := {| INTEN := false; INTMOD := false |}; _ave := {| MAMOD := false |};
     _inthl := {| LVL8 := 0 |}; _inthh := {| LVL4 := 0 |};
     _intll := {| LVL8 := 0 |}; _intlh := {| LVL4 := 0 |};
     _ihysl := {| LVL8 := 0 |}; _ihysh := {| LVL4 := 0 |} |}.

(** ** The bus adapter and the sensor behind it *)

(** What the driver asks of the outside, in order of occurrence. *)
Inductive event :=
| I2CBegin (addr : Z)
| I2CWrite (bytes : list Z) (stop : bool)
| I2CRead (len : Z)
| Delay (ms : Z).

(** The adapter ([Adafruit_I2CDevice]) with the device it talks to.
    [acks a] tells whether a device answers at bus address [a]; [chunk] is
    [maxBufferSize()]; [regs] is the register file of the device, indexed by
    its eight-bit register address, and [ptr] its address pointer, which a
    write sets and every byte moved advances; [faults] scripts the outcome
    of the transactions to come ([true]: carried out; an exhausted script:
    carried out); [trace] logs the requests made. *)
Record World := {
  acks : Z -> bool;
  chunk : Z;
  regs : Z -> Z;
  ptr : Z;
  faults : list bool;
  trace : list event
}.

(** A byte of an array: [None] while it has never been assigned. *)
Abbreviation cell := (option Z) (only parsing).

Inductive fault :=
| OutOfBounds (array : string) (index : Z)   (* access past the end of an array *)
| Indeterminate (array : string) (index : Z) (* use of a byte never assigned *)
| Undefined                                  (* float to int conversion out of range *)
| NoReturn.                                  (* the loop does not terminate *)

Inductive res (A : Type) :=
| Ok (a : A)
| Err (e : fault).
Arguments Ok {A} a.
Arguments Err {A} e.

(** Computations on the bus: state passing with failure. *)
Definition M (A : Type) : Type := World -> res (A * World).

Definition ret {A} (a : A) : M A := fun w => Ok (a, w).
Definition raise {A} (e : fault) : M A := fun _ => Err e.
Definition bind {A B} (m : M A) (k : A -> M B) : M B :=
  fun w => match m w with
           | Ok (a, w') => k a w'
           | Err e => Err e
           end.
Definition lift {A} (r : res A) : M A :=
  fun w => match r with Ok a => Ok (a, w) | Err e => Err e end.

Notation "x <- c ;; k" := (bind c (fun x => k))
  (at level 100, c at next level, right associativity).

Definition log (e : event) (w : World) : World :=
  {| acks := acks w; chunk := chunk w; regs := regs w; ptr := ptr w;
     faults := faults w; trace := trace w ++ [e] |}.

(** The outcome of the next transaction, and the world with it consumed. *)
Definition next_outcome (w : World) : bool * World :=
  match faults w with
  | [] => (true, w)
  | ok :: rest =>
      (ok, {| acks := acks w; chunk := chunk w; regs := regs w; ptr := ptr w;
              faults := rest; trace := trace w |})
  end.

(** The device stores [data] from register [p] on. *)
Fixpoint store (data : list Z) (p : Z) (r : Z -> Z) : Z -> Z :=
  match data with
  | [] => r
  | b :: data' => store data' (Int.uint8 (p + 1)) (fun a => if a =? p then b else r a)
  end.

(** The [n] bytes the device sends from register [p] on. *)
Definition dev_bytes (r : Z -> Z) (p : Z) (n : nat) : list Z :=
  map (fun j => r (Int.uint8 (p + Z.of_nat j))) (seq 0 n).

(** The device receives the bytes of a write: the first is the register
    address, the others are stored from there.  Every register is stored
    to alike: what the device does on a command written to [RST] (a reset,
    the clearing of its flags) is not modelled, and no property below
    speaks of the device registers after such a write. *)
Definition dev_write (bytes : list Z) (w : World) : World :=
  match bytes with
  | [] => w
  | r :: data =>
      {| acks := acks w; chunk := chunk w; regs := store data r (regs w);
         ptr := Int.uint8 (r + Z.of_nat (length data));
         faults := faults w; trace := trace w |}
  end.

Definition dev_advance (n : Z) (w : World) : World :=
  {| acks := acks w; chunk := chunk w; regs := regs w; ptr := Int.uint8 (ptr w + n);
     faults := faults w; trace := trace w |}.

(** [Adafruit_I2CDevice::begin()]: true when the device answers. *)
Definition i2c_begin (addr : Z) : M bool :=
  fun w => Ok (acks w addr, log (I2CBegin addr) w).

(** [Adafruit_I2CDevice::maxBufferSize()]. *)
Definition maxBufferSize : M Z := fun w => Ok (chunk w, w).

(** [Adafruit_I2CDevice::write(buffer, len, stop, prefix, prefix_len)], with
    [bytes] the prefix followed by the buffer: one transaction, whose status
    is returned. *)
Definition i2c_write (bytes : list Z) (stop : bool) : M bool :=
  fun w =>
    let '(ok, w1) := next_outcome (log (I2CWrite bytes stop) w) in
    Ok (ok, if ok then dev_write bytes w1 else w1).

(** [Adafruit_I2CDevice::read(buffer, len)]: on success the first [len]
    bytes of [buffer] are the bytes the device sends; on failure the buffer
    is left as it was. *)
Definition i2c_read (name : string) (buffer : list cell) (len : Z) : M (bool * list cell) :=
  fun w =>
    let '(ok, w1) := next_outcome (log (I2CRead len) w) in
    if ok then
      if len <=? Z.of_nat (length buffer) then
        Ok ((true, map Some (dev_bytes (regs w1) (ptr w1) (Z.to_nat len))
                     ++ drop (Z.to_nat len) buffer),
            dev_advance len w1)
      else Err (OutOfBounds name (Z.of_nat (length buffer)))
    else Ok ((false, buffer), w1).

(** [delay(ms)]. *)
Definition delay (ms : Z) : M unit := fun w => Ok (tt, log (Delay ms) w).

(** ** Bus access of the driver *)

(** Element [i] of a byte array, for reading. *)
Definition load (name : string) (a : list cell) (i : Z) : res Z :=
  match a !! Z.to_nat i with
  | None => Err (OutOfBounds name i)
  | Some None => Err (Indeterminate name i)
  | Some (Some b) => Ok b
  end.

(** The inner loop of [read],
    [for (uint8_t i = 0; i < read_now; i++) { buf[pos] = read_buffer[i]; pos++; }],
    with [n] the iterations left. *)
Fixpoint copy_chunk (n : nat) (i : Z) (read_buffer buf : list cell) (pos : Z)
  : res (list cell * Z) :=
  match n with
  | O => Ok (buf, pos)
  | S n' =>
      match read_buffer !! Z.to_nat i with
      | None => Err (OutOfBounds "read_buffer" i)
      | Some c =>
          if pos <? Z.of_nat (length buf)
          then copy_chunk n' (Int.uint8 (i + 1)) read_buffer
                 (<[Z.to_nat pos := c]> buf) (Int.uint8 (pos + 1))
          else Err (OutOfBounds "buf" pos)
      end
  end.

(** The outer loop of [read], [while (pos < num) { ... }], run for at most
    [fuel] iterations. *)
Fixpoint read_chunks (fuel : nat) (reg num chunkSize pos : Z)
    (read_buffer buf : list cell) : M (list cell) :=
  match fuel with
  | O => raise NoReturn
  | S fuel' =>
      if pos <? num then
        _ <- i2c_write [Int.uint8 (reg + pos)] true ;;
        let read_now := Int.min (Int.uint8 chunkSize) (Int.uint8 (num - pos)) in
        r <- i2c_read "read_buffer" read_buffer read_now ;;
        c <- lift (copy_chunk (Z.to_nat read_now) 0 (snd r) buf pos) ;;
        read_chunks fuel' reg num chunkSize (snd c) (snd r) (fst c)
      else ret buf
  end.

(** [void read(uint8_t reg, uint8_t *buf, uint8_t num)].  The loop advances
    [pos] by at least one byte per iteration whenever it advances at all, so
    256 iterations are more than any terminating run takes. *)
Definition read (reg : Z) (buf : list cell) (num : Z) : M (list cell) :=
  chunkSize <- maxBufferSize ;;
  if num <? chunkSize then
    _ <- i2c_write [reg] true ;;
    r <- i2c_read "buf" buf num ;;
    ret (snd r)
  else
    read_chunks 256 reg num chunkSize 0 (repeat None (Z.to_nat chunkSize)) buf.

(** [void write(uint8_t reg, uint8_t *buf, uint8_t num)]:
    [i2c_dev->write(buf, num, true, prefix, 1)] with [prefix = {reg}]. *)
Definition write (reg : Z) (buf : list Z) (num : Z) : M unit :=
  if num <=? Z.of_nat (length buf) then
    _ <- i2c_write (reg :: take (Z.to_nat num) buf) true ;;
    ret tt
  else raise (OutOfBounds "buf" (Z.of_nat (length buf))).

(** [void write8(byte reg, byte value)]. *)
Definition write8 (reg value : Z) : M unit := write reg [value] 1.

(** [uint8_t read8(byte reg)]. *)
Definition read8 (reg : Z) : M Z :=
  b <- read reg [None] 1 ;;
  lift (load "ret" b 0).

(** ** Operations of the driver *)

(** [void disableInterrupt()] and [void enableInterrupt()]. *)
Definition disableInterrupt (d : Driver) : M Driver :=
  let d := set_intc {| INTEN := bit1 0; INTMOD := INTMOD (_intc d) |} d in
  _ <- write8 AMG88xx_INTC (intc_get (_intc d)) ;;
  ret d.

Definition enableInterrupt (d : Driver) : M Driver :=
  let d := set_intc {| INTEN := bit1 1; INTMOD := INTMOD (_intc d) |} d in
  _ <- write8 AMG88xx_INTC (intc_get (_intc d)) ;;
  ret d.

(** [void setInterruptMode(uint8_t mode)]. *)
Definition setInterruptMode (mode : Z) (d : Driver) : M Driver :=
  let d := set_intc {| INTEN := INTEN (_intc d); INTMOD := bit1 mode |} d in
  _ <- write8 AMG88xx_INTC (intc_get (_intc d)) ;;
  ret d.

(** [void setMovingAverageMode(bool mode)]. *)
Definition setMovingAverageMode (mode : bool) (d : Driver) : M Driver :=
  let d := set_ave {| MAMOD := mode |} d in
  _ <- write8 AMG88xx_AVE (ave_get (_ave d)) ;;
  ret d.

(** [void clearInterrupt()]. *)
Definition clearInterrupt (d : Driver) : M Driver :=
  let d := set_rst {| RST := bits8 AMG88xx_FLAG_RESET |} d in
  _ <- write8 AMG88xx_RST (rst_get (_rst d)) ;;
  ret d.

(** [bool begin(uint8_t addr, TwoWire *theWire)]. *)
Definition begin (addr : Z) (d : Driver) : M (bool * Driver) :=
  ok <- i2c_begin addr ;;
  if negb ok then ret (false, d)
  else
    let d := set_pctl {| PCTL := bits8 AMG88xx_NORMAL_MODE |} d in
    _ <- write8 AMG88xx_PCTL (pctl_get (_pctl d)) ;;
    let d := set_rst {| RST := bits8 AMG88xx_INITIAL_RESET |} d in
    _ <- write8 AMG88xx_RST (rst_get (_rst d)) ;;
    d <- disableInterrupt d ;;
    let d := set_fpsc {| FPS := bit1 AMG88xx_FPS_10 |} d in
    _ <- write8 AMG88xx_FPSC (fpsc_get (_fpsc d)) ;;
    _ <- delay 100 ;;
    ret (true, d).

(** One limit of [setInterruptLevels]:
    [int conv = limit / AMG88xx_PIXEL_TEMP_CONVERSION;
     conv = constrain(conv, -4095, 4095)], for an [int] of [int_bits] bits. *)
Definition level_conv (int_bits : Z) (limit : F.float) : res Z :=
  match F.int_of_double int_bits
          (F.ddiv (F.double_of_float limit) AMG88xx_PIXEL_TEMP_CONVERSION) with
  | Some conv => Ok (Int.constrain conv (-4095) 4095)
  | None => Err Undefined
  end.

(** The two fields a limit is split into:
    [lo = conv & 0xFF] and [hi = (conv & 0xF) >> 4]. *)
Definition level_lo (conv : Z) : lvl_lo := {| LVL8 := bits8 (Z.land conv 0xFF) |}.
Definition level_hi (conv : Z) : lvl_hi := {| LVL4 := bits4 (Z.shiftr (Z.land conv 0xF) 4) |}.

(** [void setInterruptLevels(float high, float low, float hysteresis)]. *)
Definition setInterruptLevels (int_bits : Z) (high low hysteresis : F.float)
    (d : Driver) : M Driver :=
  highConv <- lift (level_conv int_bits high) ;;
  let d := set_inth (level_lo highConv) (level_hi highConv) d in
  _ <- write8 AMG88xx_INTHL (lvl_lo_get (_inthl d)) ;;
  _ <- write8 AMG88xx_INTHH (lvl_hi_get (_inthh d)) ;;
  lowConv <- lift (level_conv int_bits low) ;;
  let d := set_intl (level_lo lowConv) (level_hi lowConv) d in
  _ <- write8 AMG88xx_INTLL (lvl_lo_get (_intll d)) ;;
  _ <- write8 AMG88xx_INTLH (lvl_hi_get (_intlh d)) ;;
  hysConv <- lift (level_conv int_bits hysteresis) ;;
  let d := set_ihys (level_lo hysConv) (level_hi hysConv) d in
  _ <- write8 AMG88xx_IHYSL (lvl_lo_get (_ihysl d)) ;;
  _ <- write8 AMG88xx_IHYSH (lvl_hi_get (_ihysh d)) ;;
  ret d.

(** The [double] literal [.95]: the double nearest to 95/100. *)
Definition lit_0_95 : F.double := F.ddiv (F.double_of_int 95) (F.double_of_int 100).

(** [void setInterruptLevels(float high, float low)]:
    [setInterruptLevels(high, low, high * .95)]. *)
Definition setInterruptLevels_default (int_bits : Z) (high low : F.float)
    (d : Driver) : M Driver :=
  setInterruptLevels int_bits high low
    (F.float_of_double (F.dmul (F.double_of_float high) lit_0_95)) d.

(** [void getInterrupt(uint8_t *buf, uint8_t size)]. *)
Definition getInterrupt (buf : list cell) (size : Z) : M (list cell) :=
  let bytesToRead := Int.min size (Int.uint8 8) in
  read AMG88xx_INT_OFFSET buf bytesToRead.

(** The sixteen-bit word [((uint16_t)a[hi] << 8) | ((uint16_t)a[lo])]. *)
Definition recast_word (name : string) (a : list cell) (hi lo : Z) : res Z :=
  match load name a hi with
  | Ok h =>
      match load name a lo with
      | Ok l => Ok (Z.lor (Int.uint16 (Z.shiftl h 8)) l)
      | Err e => Err e
      end
  | Err e => Err e
  end.

(** The temperature of a thermistor word:
    [signedMag12ToFloat(recast) * AMG88xx_THERMISTOR_CONVERSION], returned
    as a [float]. *)
Definition thermistor_temp (recast : Z) : F.float :=
  F.float_of_double
    (F.dmul (F.double_of_float (signedMag12ToFloat recast)) AMG88xx_THERMISTOR_CONVERSION).

(** [float readThermistor()]. *)
Definition readThermistor : M F.float :=
  raw <- read AMG88xx_TTHL [None; None] 2 ;;
  recast <- lift (recast_word "raw" raw 1 0) ;;
  ret (thermistor_temp recast).

(** The temperature of a pixel word:
    [int12ToFloat(recast) * AMG88xx_PIXEL_TEMP_CONVERSION], stored in a
    [float]. *)
Definition pixel_temp (recast : Z) : F.float :=
  F.float_of_double
    (F.dmul (F.double_of_float (int12ToFloat recast)) AMG88xx_PIXEL_TEMP_CONVERSION).

(** The loop of [readPixels], [for (int i = 0; i < size; i++) { ... }],
    with [n] the iterations left. *)
Fixpoint convert_pixels (n : nat) (i : Z) (rawArray : list cell)
    (buf : list F.float) : res (list F.float) :=
  match n with
  | O => Ok buf
  | S n' =>
      let pos := Int.uint8 (Z.shiftl i 1) in
      match recast_word "rawArray" rawArray (pos + 1) pos with
      | Err e => Err e
      | Ok recast =>
          let converted := pixel_temp recast in
          if i <? Z.of_nat (length buf)
          then convert_pixels n' (i + 1) rawArray (<[Z.to_nat i := converted]> buf)
          else Err (OutOfBounds "buf" i)
      end
  end.

(** [void readPixels(float *buf, uint8_t size)]. *)
Definition readPixels (buf : list F.float) (size : Z) : M (list F.float) :=
  let bytesToRead :=
    Int.min (Int.uint8 (Z.shiftl size 1))
            (Int.uint8 (Z.shiftl AMG88xx_PIXEL_ARRAY_SIZE 1)) in
  rawArray <- read AMG88xx_PIXEL_OFFSET (repeat None (Z.to_nat bytesToRead)) bytesToRead ;;
  lift (convert_pixels (Z.to_nat size) 0 rawArray buf).

(** ** A test bench *)

(** A sensor at address 0x69 whose register [a] holds [a], behind an adapter
    that moves at most [c] bytes in a transaction, with no fault scripted. *)
Definition bench (c : Z) : World :=
  {| acks := fun a => a =? 0x69; chunk := c; regs := fun a => a; ptr := 0;
     faults := []; trace := [] |}.

(** The bench with [{0x10, 0x08}] at the thermistor registers. *)
Definition thermistor_bench : World :=
  {| acks := fun a => a =? 0x69; chunk := 32;
     regs := fun a => if a =? 0x0E then 0x10 else if a =? 0x0F then 0x08 else 0;
     ptr := 0; faults := []; trace := [] |}.

(** The requests logged by a run that returned. *)
Definition requests {A} (r : res (A * World)) : list event :=
  match r with Ok (_, w) => trace w | Err _ => [] end.

(** The world [w] with the outcomes of the transactions to come set to
    [script]. *)
Definition with_faults (script : list bool) (w : World) : World :=
  {| acks := acks w; chunk := chunk w; regs := regs w; ptr := ptr w;
     faults := script; trace := trace w |}.

(** The mirrors other than [_intc], and other than [_ave], are the same in
    [d] and [d']. *)
Definition same_but_intc (d d' : Driver) : Prop :=
  _pctl d' = _pctl d /\ _rst d' = _rst d /\ _fpsc d' = _fpsc d /\ _ave d' = _ave d
  /\ _inthl d' = _inthl d /\ _inthh d' = _inthh d /\ _intll d' = _intll d
  /\ _intlh d' = _intlh d /\ _ihysl d' = _ihysl d /\ _ihysh d' = _ihysh d.

Definition same_but_ave (d d' : Driver) : Prop :=
  _pctl d' = _pctl d /\ _rst d' = _rst d /\ _fpsc d' = _fpsc d /\ _intc d' = _intc d
  /\ _inthl d' = _inthl d /\ _inthh d' = _inthh d /\ _intll d' = _intll d
  /\ _intlh d' = _intlh d /\ _ihysl d' = _ihysl d /\ _ihysh d' = _ihysh d.

(** ** Reading the log *)

(** The number of bytes the read requests of a log ask for. *)
Fixpoint bytes_read (evs : list event) : Z :=
  match evs with
  | [] => 0
  | I2CRead len :: evs' => len + bytes_read evs'
  | _ :: evs' => bytes_read evs'
  end.

(** A request that moves no more than [c] bytes. *)
Definition fits (c : Z) (e : event) : Prop :=
  match e with
  | I2CRead len => 0 <= len <= c
  | I2CWrite bytes _ => Z.of_nat (length bytes) <= c
  | _ => True
  end.

(** The worlds that differ from [w] by the position of the device pointer
    and by the requests logged. *)
Definition same_device (w w' : World) : Prop :=
  acks w' = acks w /\ chunk w' = chunk w /\ regs w' = regs w /\ faults w' = faults w.

(** The registers of the device hold bytes. *)
Definition byte_regs (w : World) : Prop :=
  forall a, 0 <= a < 256 -> 0 <= regs w a < 256.

(** The little-endian word of two bytes, as the spec words it. *)
Definition le16 (lo hi : Z) : Z := lo + 256 * hi.

(** The value of a twelve-bit sign and magnitude word, as the spec words it:
    minus the low eleven bits when bit 0x800 is set, plus them otherwise. *)
Definition signed_mag_12 (w : Z) : Z :=
  if Z.testbit w 11 then - Z.land w 0x7FF else Z.land w 0x7FF.

(** The value of a twelve-bit two's complement word, as the spec words it:
    the low twelve bits, sign-extended. *)
Definition twos_complement_12 (w : Z) : Z :=
  let v := w mod 4096 in if v <? 2048 then v else v - 4096.

(** What a run of the driver's [read] at register [reg] leaves behind: the
    device as it was, and a log extended by a write of [{reg}] and then by
    requests that fit the adapter and ask for [n] bytes in all. *)
Definition read_post (w : World) (reg n : Z) (w' : World) : Prop :=
  same_device w w'
  /\ exists evs, trace w' = trace w ++ I2CWrite [reg] true :: evs
                 /\ bytes_read evs = n /\ Forall (fits (chunk w)) evs.

(** The single transaction the chunked read is compared with, as the spec
    words it: write [{reg}], then read [num] bytes at once. *)
Definition single_read (reg : Z) (buf : list cell) (num : Z) : M (list cell) :=
  _ <- i2c_write [reg] true ;;
  r <- i2c_read "buf" buf num ;;
  ret (snd r).

(** The word the loop of [readPixels] forms for pixel [k] from the bytes
    [data] of the raw array. *)
Definition raw_word (data : list Z) (k : Z) : Z :=
  Z.lor (Int.uint16 (Z.shiftl (nth (Z.to_nat (2 * k + 1)) data 0) 8))
        (nth (Z.to_nat (2 * k)) data 0).

(** What is checked of the two temperature conversions at the word [w]:
    the result is exactly the decoded word, in quarters and in sixteenths
    of a degree. *)
Definition pixel_check (w : Z) : bool :=
  match F.in_units 2 (pixel_temp w) with
  | Some v => v =? twos_complement_12 w
  | None => false
  end.

Definition thermistor_check (w : Z) : bool :=
  match F.in_units 4 (thermistor_temp w) with
  | Some v => v =? signed_mag_12 w
  | None => false
  end.


(** The integers [z], [z + 1], ... , [z + n - 1]. *)
Fixpoint upfrom (z : Z) (n : nat) : list Z :=
  match n with
  | O => []
  | S n' => z :: upfrom (z + 1) n'
  end.

(** ** Further readings of floats, logs and mirrors *)

(** Equality of two floats as values of [spec_float], decided. *)
Definition float_eqb (x y : spec_float) : bool :=
  match x, y with
  | S754_zero a, S754_zero b => Bool.eqb a b
  | S754_infinity a, S754_infinity b => Bool.eqb a b
  | S754_nan, S754_nan => true
  | S754_finite a m e, S754_finite b m' e' => Bool.eqb a b && (m =? m')%positive && (e =? e')
  | _, _ => false
  end.

(** What is checked of [int12ToFloat] at the word [w]. *)
Definition int12_check (w : Z) : bool :=
  match F.in_units 0 (int12ToFloat w) with
  | Some v => v =? twos_complement_12 w
  | None => false
  end.

(** What is checked of the two decoders together at the word [w]. *)
Definition agree_check (w : Z) : bool :=
  Z.testbit w 11 || float_eqb (int12ToFloat w) (signedMag12ToFloat w).

(** What is checked of a pixel temperature given back as a limit. *)
Definition round_trip_check (w : Z) : bool :=
  match level_conv 16 (pixel_temp w) with
  | Ok k => k =? twos_complement_12 w
  | Err _ => false
  end.

(** The hysteresis [setInterruptLevels(high, low)] passes on: [high * .95],
    as a [float]. *)
Definition default_hysteresis (high : F.float) : F.float :=
  F.float_of_double (F.dmul (F.double_of_float high) lit_0_95).

(** What is checked of the default hysteresis at the whole-degree limit
    [t - 2048]. *)
Definition hysteresis_check (t : Z) : bool :=
  match level_conv 16 (default_hysteresis (F.float_of_int (t - 2048))) with
  | Ok k => k =? Int.constrain (Z.quot (19 * (t - 2048)) 5) (-4095) 4095
  | Err _ => false
  end.

(** What is checked of the conversion of the whole-degree limit
    [t - 2048]. *)
Definition whole_degree_check (t : Z) : bool :=
  match level_conv 16 (F.float_of_int (t - 2048)) with
  | Ok k => k =? Int.constrain (4 * (t - 2048)) (-4095) 4095
  | Err _ => false
  end.

(** The mirrors other than [_rst] are the same in [d] and [d']. *)
Definition same_but_rst (d d' : Driver) : Prop :=
  _pctl d' = _pctl d /\ _fpsc d' = _fpsc d /\ _intc d' = _intc d /\ _ave d' = _ave d
  /\ _inthl d' = _inthl d /\ _inthh d' = _inthh d /\ _intll d' = _intll d
  /\ _intlh d' = _intlh d /\ _ihysl d' = _ihysl d /\ _ihysh d' = _ihysh d.

(** The mirrors other than the six threshold bytes are the same in [d] and
    [d']. *)
Definition same_but_levels (d d' : Driver) : Prop :=
  _pctl d' = _pctl d /\ _rst d' = _rst d /\ _fpsc d' = _fpsc d
  /\ _intc d' = _intc d /\ _ave d' = _ave d.

(** The mirrors [begin] does not assign are the same in [d] and [d']. *)
Definition same_but_begin (d d' : Driver) : Prop :=
  INTMOD (_intc d') = INTMOD (_intc d) /\ _ave d' = _ave d
  /\ _inthl d' = _inthl d /\ _inthh d' = _inthh d /\ _intll d' = _intll d
  /\ _intlh d' = _intlh d /\ _ihysl d' = _ihysl d /\ _ihysh d' = _ihysh d.

(** The number of read requests of a log. *)
Fixpoint count_reads (evs : list event) : Z :=
  match evs with
  | [] => 0
  | I2CRead _ :: evs' => 1 + count_reads evs'
  | _ :: evs' => count_reads evs'
  end.

(** Every read request of a log asks for exactly [c] bytes, except that the
    last one may ask for fewer. *)
Fixpoint full_chunks (c : Z) (evs : list event) : Prop :=
  match evs with
  | [] => True
  | I2CRead len :: evs' =>
      (len = c \/ (0 <= len <= c /\ count_reads evs' = 0)) /\ full_chunks c evs'
  | _ :: evs' => full_chunks c evs'
  end.

(** * Properties *)

(** ** Only the low twelve bits of a word count *)

Lemma land_low12 (w m : Z) :
  Z.land 0xFFF m = m -> Z.land (Z.land w 0xFFF) m = Z.land w m.
Proof. intros Hm. rewrite <- Z.land_assoc, Hm. reflexivity. Qed.

Lemma low12_range (w : Z) : 0 <= Z.land w 0xFFF < 4096.
Proof.
  change 0xFFF with (Z.ones 12). rewrite Z.land_ones by lia.
  apply Z.mod_pos_bound. lia.
Qed.

Lemma signedMag12ToFloat_low12 (w : Z) :
  signedMag12ToFloat (Z.land w 0xFFF) = signedMag12ToFloat w.
Proof.
  unfold signedMag12ToFloat.
  rewrite (land_low12 w 0x7FF), (land_low12 w 0x800) by reflexivity.
  reflexivity.
Qed.

Lemma signed_mag_12_low12 (w : Z) : signed_mag_12 (Z.land w 0xFFF) = signed_mag_12 w.
Proof.
  unfold signed_mag_12.
  rewrite (land_low12 w 0x7FF) by reflexivity.
  rewrite Z.land_spec. change (Z.testbit 0xFFF 11) with true.
  rewrite andb_true_r. reflexivity.
Qed.

Lemma int12ToFloat_low12 (w : Z) : int12ToFloat (w mod 4096) = int12ToFloat w.
Proof.
  unfold int12ToFloat, Int.int16.
  rewrite !Z.shiftl_mul_pow2 by lia.
  do 3 f_equal.
  rewrite (Z.div_mod w 4096) at 2 by lia.
  replace ((4096 * (w / 4096) + w mod 4096) * 2 ^ 4 + 32768)
    with (w mod 4096 * 2 ^ 4 + 32768 + (w / 4096) * 65536) by lia.
  rewrite Z_mod_plus_full. reflexivity.
Qed.

Lemma twos_complement_12_low12 (w : Z) :
  twos_complement_12 (w mod 4096) = twos_complement_12 w.
Proof. unfold twos_complement_12. rewrite Z.mod_mod by lia. reflexivity. Qed.

(** ** Exhaustive checks over a segment of the integers *)

Lemma in_upfrom (n : nat) : forall z x, z <= x < z + Z.of_nat n -> In x (upfrom z n).
Proof.
  induction n as [|n IH]; intros z x Hx; [lia|].
  destruct (Z.eq_dec x z) as [->|Hne]; [now left|].
  right. apply IH. lia.
Qed.

Lemma forallb_upfrom (P : Z -> bool) (n : nat) :
  forallb P (upfrom 0 n) = true ->
  forall z, 0 <= z < Z.of_nat n -> P z = true.
Proof.
  intros Hall z Hz.
  rewrite forallb_forall in Hall.
  apply Hall, in_upfrom. lia.
Qed.


(** ** The numeric codec *)



(** ** The bus primitives when no fault is scripted *)

Lemma same_device_refl (w : World) : same_device w w.
Proof. repeat split. Qed.

Lemma same_device_trans (w1 w2 w3 : World) :
  same_device w1 w2 -> same_device w2 w3 -> same_device w1 w3.
Proof.
  unfold same_device. intros (A1 & C1 & R1 & F1) (A2 & C2 & R2 & F2).
  repeat split; congruence.
Qed.

Lemma i2c_write_reg (r : Z) (w : World) :
  faults w = [] ->
  exists w', i2c_write [r] true w = Ok (true, w')
    /\ same_device w w' /\ ptr w' = Int.uint8 r
    /\ trace w' = trace w ++ [I2CWrite [r] true].
Proof.
  intros Hf. unfold i2c_write, next_outcome, log. simpl. rewrite Hf.
  eexists. split; [reflexivity|].
  unfold same_device. simpl. rewrite Z.add_0_r. repeat split; auto.
Qed.

Lemma i2c_read_ok (name : string) (buffer : list cell) (len : Z) (w : World) :
  faults w = [] -> len <= Z.of_nat (length buffer) ->
  exists w', i2c_read name buffer len w
             = Ok ((true, map Some (dev_bytes (regs w) (ptr w) (Z.to_nat len))
                            ++ drop (Z.to_nat len) buffer), w')
    /\ same_device w w' /\ ptr w' = Int.uint8 (ptr w + len)
    /\ trace w' = trace w ++ [I2CRead len].
Proof.
  intros Hf Hlen. unfold i2c_read, next_outcome, log. simpl. rewrite Hf.
  apply Z.leb_le in Hlen. rewrite Hlen.
  eexists. split; [reflexivity|].
  unfold same_device. simpl. repeat split; auto.
Qed.

(** ** The bytes the device sends *)

Lemma uint8_add_l (a b : Z) : Int.uint8 (Int.uint8 a + b) = Int.uint8 (a + b).
Proof. unfold Int.uint8. apply Zplus_mod_idemp_l. Qed.

Lemma dev_bytes_length (r : Z -> Z) (p : Z) (n : nat) : length (dev_bytes r p n) = n.
Proof. unfold dev_bytes. now rewrite length_map, length_seq. Qed.

Lemma lookup_map {A B} (f : A -> B) (l : list A) (i : nat) :
  map f l !! i = option_map f (l !! i).
Proof.
  revert i. induction l as [|x l IH]; intros [|i]; simpl; auto.
Qed.

Lemma dev_bytes_lookup (r : Z -> Z) (p : Z) (n j : nat) :
  (j < n)%nat -> dev_bytes r p n !! j = Some (r (Int.uint8 (p + Z.of_nat j))).
Proof.
  intros Hj. unfold dev_bytes. rewrite lookup_map, lookup_seq_lt by lia.
  reflexivity.
Qed.

Lemma dev_bytes_uint8 (r : Z -> Z) (p : Z) (n : nat) :
  dev_bytes r (Int.uint8 p) n = dev_bytes r p n.
Proof.
  unfold dev_bytes. apply map_ext. intros j. now rewrite uint8_add_l.
Qed.


Lemma dev_bytes_app (r : Z -> Z) (p : Z) (a b : nat) :
  dev_bytes r p (a + b) = dev_bytes r p a ++ dev_bytes r (p + Z.of_nat a) b.
Proof.
  unfold dev_bytes. rewrite seq_app, map_app. f_equal.
  rewrite Nat.add_0_l.
  replace (seq a b) with (map (fun j => (a + j)%nat) (seq 0 b)).
  - rewrite map_map. apply map_ext. intros j. do 2 f_equal. lia.
  - clear. revert a. induction b as [|b IH]; intros a; [reflexivity|].
    simpl. rewrite Nat.add_0_r. f_equal.
    rewrite <- seq_shift, map_map, <- (IH (S a)).
    apply map_ext. intros j. lia.
Qed.

Lemma uint8_small (z : Z) : 0 <= z < 256 -> Int.uint8 z = z.
Proof. intros H. unfold Int.uint8. now apply Z.mod_small. Qed.

Lemma copy_chunk_ok (n : nat) :
  forall (i : Z) (read_buffer buf : list cell) (pos : Z),
    0 <= i -> i + Z.of_nat n <= Z.of_nat (length read_buffer) -> i + Z.of_nat n <= 255 ->
    0 <= pos -> pos + Z.of_nat n <= Z.of_nat (length buf) -> pos + Z.of_nat n <= 255 ->
    copy_chunk n i read_buffer buf pos
    = Ok (take (Z.to_nat pos) buf ++ take n (drop (Z.to_nat i) read_buffer)
            ++ drop (Z.to_nat pos + n) buf, pos + Z.of_nat n).
Proof.
  induction n as [|n IH]; intros i rb buf pos Hi Hrb Hi255 Hpos Hbuf Hpos255.
  - simpl. rewrite Nat.add_0_r, take_drop, Z.add_0_r. reflexivity.
  - cbn [copy_chunk].
    destruct (lookup_lt_is_Some_2 rb (Z.to_nat i) ltac:(lia)) as [c Hc].
    rewrite Hc.
    replace (pos <? Z.of_nat (length buf)) with true by (symmetry; apply Z.ltb_lt; lia).
    rewrite !uint8_small by lia.
    rewrite IH by (rewrite ?length_insert; lia).
    f_equal. f_equal; [|lia].
    replace (Z.to_nat (pos + 1)) with (S (Z.to_nat pos)) by lia.
    replace (Z.to_nat (i + 1)) with (S (Z.to_nat i)) by lia.
    rewrite (drop_S rb c (Z.to_nat i) Hc). cbn [take].
    rewrite (take_S_r (<[Z.to_nat pos:=c]> buf) (Z.to_nat pos) c)
      by (apply list_lookup_insert_eq; lia).
    rewrite take_insert_ge by lia.
    rewrite drop_insert_lt by lia.
    rewrite <- app_assoc. simpl.
    rewrite Nat.add_succ_r. reflexivity.
Qed.

Lemma bytes_read_app (l1 l2 : list event) :
  bytes_read (l1 ++ l2) = bytes_read l1 + bytes_read l2.
Proof.
  induction l1 as [|e l1 IH]; [reflexivity|].
  destruct e; simpl; lia.
Qed.

(** ** The chunked read *)

Lemma read_chunks_ok (reg num : Z) (buf0 : list cell) (fuel : nat) :
  forall (pos : Z) (read_buffer buf : list cell) (w : World),
    faults w = [] ->
    0 <= reg < 256 -> 0 <= num < 256 ->
    1 <= chunk w <= num ->
    Z.of_nat (length read_buffer) = chunk w ->
    num <= Z.of_nat (length buf0) ->
    0 <= pos <= num ->
    num - pos < Z.of_nat fuel ->
    buf = map Some (dev_bytes (regs w) reg (Z.to_nat pos)) ++ drop (Z.to_nat pos) buf0 ->
    exists w',
      read_chunks fuel reg num (chunk w) pos read_buffer buf w
      = Ok (map Some (dev_bytes (regs w) reg (Z.to_nat num)) ++ drop (Z.to_nat num) buf0, w')
      /\ same_device w w'
      /\ exists evs, trace w' = trace w ++ evs
           /\ bytes_read evs = num - pos /\ Forall (fits (chunk w)) evs
           /\ (pos < num ->
               exists rest, evs = I2CWrite [Int.uint8 (reg + pos)] true :: rest).
Proof.
  induction fuel as [|fuel IH];
    intros pos rb buf w Hf Hreg Hnum Hc Hrb Hb0 Hpos Hfuel Hbuf; [lia|].
  cbn [read_chunks].
  destruct (Z.ltb_spec pos num) as [Hlt|Hge].
  - unfold bind at 1.
    destruct (i2c_write_reg (Int.uint8 (reg + pos)) w Hf) as (w1 & -> & Hs1 & Hp1 & Ht1).
    set (read_now := Int.min (Int.uint8 (chunk w)) (Int.uint8 (num - pos))).
    assert (Hrn : 1 <= read_now <= chunk w /\ read_now <= num - pos).
    { unfold read_now, Int.min. rewrite !uint8_small by lia.
      destruct (Z.ltb_spec (chunk w) (num - pos)); lia. }
    clearbody read_now.
    destruct Hs1 as (A1 & C1 & R1 & F1).
    unfold bind at 1.
    assert (Hf1 : faults w1 = []) by congruence.
    assert (Hlen1 : read_now <= Z.of_nat (length rb)) by lia.
    destruct (i2c_read_ok "read_buffer" rb read_now w1 Hf1 Hlen1)
      as (w2 & -> & Hs2 & Hp2 & Ht2).
    destruct Hs2 as (A2 & C2 & R2 & F2).
    cbn [snd].
    unfold bind at 1, lift at 1.
    rewrite copy_chunk_ok;
      rewrite ?length_app, ?length_map, ?dev_bytes_length, ?length_drop; try lia.
    2:{ subst buf. rewrite length_app, length_map, dev_bytes_length, length_drop. lia. }
    cbn [fst snd].
    assert (Cw : chunk w2 = chunk w) by congruence.
    assert (Rw : regs w2 = regs w) by congruence.
    assert (Hn : Z.of_nat (Z.to_nat read_now) = read_now) by lia.
    rewrite Hn.
    set (rb' := map Some (dev_bytes (regs w1) (ptr w1) (Z.to_nat read_now))
                  ++ drop (Z.to_nat read_now) rb).
    assert (Hrb' : Z.of_nat (length rb') = chunk w2).
    { unfold rb'. rewrite length_app, length_map, dev_bytes_length, length_drop. lia. }
    assert (Hchunk : take (Z.to_nat read_now) (drop (Z.to_nat 0) rb')
                     = map Some (dev_bytes (regs w) (reg + pos) (Z.to_nat read_now))).
    { unfold rb'. change (Z.to_nat 0) with 0%nat. rewrite drop_0.
      rewrite take_app_length' by (rewrite length_map, dev_bytes_length; lia).
      rewrite R1, Hp1, !dev_bytes_uint8. reflexivity. }
    rewrite Hchunk. clearbody rb'.
    set (buf' := take (Z.to_nat pos) buf ++ _ ++ _).
    assert (Hbuf' : buf' = map Some (dev_bytes (regs w2) reg (Z.to_nat (pos + read_now)))
                           ++ drop (Z.to_nat (pos + read_now)) buf0).
    { unfold buf'. subst buf. rewrite Rw.
      rewrite take_app_length' by (rewrite length_map, dev_bytes_length; lia).
      rewrite drop_app_ge by (rewrite length_map, dev_bytes_length; lia).
      rewrite length_map, dev_bytes_length, drop_drop, app_assoc, <- map_app.
      replace (Z.to_nat (pos + read_now))
        with (Z.to_nat pos + Z.to_nat read_now)%nat by lia.
      rewrite dev_bytes_app, Z2Nat.id by lia.
      do 2 f_equal. lia. }
    clearbody buf'.
    rewrite <- Cw, <- Rw.
    destruct (IH (pos + read_now) rb' buf' w2)
      as (w3 & -> & Hs3 & evs & Ht3 & Hbr & Hfit & _);
      try congruence; try lia.
    eexists. split; [reflexivity|].
    destruct Hs3 as (A3 & C3 & R3 & F3). split.
    { repeat split; congruence. }
    exists ([I2CWrite [Int.uint8 (reg + pos)] true; I2CRead read_now] ++ evs).
    split; [rewrite Ht3, Ht2, Ht1, <- !app_assoc; reflexivity|].
    split.
    { rewrite bytes_read_app, Hbr. simpl. lia. }
    split.
    { apply Forall_app. split.
      { repeat constructor; simpl; lia. }
      exact Hfit. }
    intros _. eexists. reflexivity.
  - unfold ret. assert (pos = num) by lia. subst pos.
    eexists. split; [subst buf; reflexivity|].
    split; [apply same_device_refl|].
    exists []. rewrite app_nil_r, Z.sub_diag. repeat split; [constructor | lia].
Qed.

Lemma read_ok (reg : Z) (buf : list cell) (num : Z) (w : World) :
  faults w = [] -> 1 <= chunk w ->
  0 <= reg < 256 -> 0 <= num < 256 -> num <= Z.of_nat (length buf) ->
  exists w',
    read reg buf num w
    = Ok (map Some (dev_bytes (regs w) reg (Z.to_nat num)) ++ drop (Z.to_nat num) buf, w')
    /\ read_post w reg num w'.
Proof.
  intros Hf Hc Hreg Hnum Hbuf.
  unfold read, bind at 1, maxBufferSize.
  destruct (Z.ltb_spec num (chunk w)) as [Hlt|Hge].
  - unfold bind at 1.
    destruct (i2c_write_reg reg w Hf) as (w1 & -> & (A1 & C1 & R1 & F1) & Hp1 & Ht1).
    assert (Hf1 : faults w1 = []) by congruence.
    unfold bind at 1.
    destruct (i2c_read_ok "buf" buf num w1 Hf1 Hbuf)
      as (w2 & -> & (A2 & C2 & R2 & F2) & Hp2 & Ht2).
    unfold ret. cbn [snd].
    eexists. split.
    + rewrite R1, Hp1, dev_bytes_uint8. reflexivity.
    + split; [repeat split; congruence|].
      exists [I2CRead num].
      split; [rewrite Ht2, Ht1, <- app_assoc; reflexivity|].
      split; [simpl; lia|].
      repeat constructor; simpl; lia.
  - destruct (read_chunks_ok reg num buf 256 0 (repeat None (Z.to_nat (chunk w))) buf w)
      as (w' & Hrun & Hsame & evs & Ht & Hbr & Hfit & Hhd); try lia; try assumption.
    + rewrite repeat_length. lia.
    + reflexivity.
    + destruct (Hhd ltac:(lia)) as (rest & ->).
      rewrite Z.add_0_r, uint8_small in Ht by lia.
      exists w'. split; [assumption|]. split; [assumption|].
      exists rest. split; [assumption|].
      split; [simpl in Hbr; lia|].
      apply Forall_inv_tail in Hfit. exact Hfit.
Qed.

(** C2: for every byte count [N] from 1 to 255, every start register [R]
    and every adapter whose largest transaction is [C >= 1] bytes, when no
    transaction fails the chunked [read] returns, and the buffer it leaves
    is the one a single write of [{R}] followed by one read of [N] bytes
    leaves: offset [j] holds the byte of device register [R + j] (the
    register address wraps at eight bits, in the driver as on the device)
    for every [j < N], and the rest of the buffer is as it was.  The
    requests made ask for [N] bytes in all, none for more than [C]. *)
Theorem read_chunked_same_as_single (R N C : Z) (buf : list cell) (w : World) :
  faults w = [] -> chunk w = C -> 1 <= C ->
  0 <= R < 256 -> 1 <= N < 256 -> N <= Z.of_nat (length buf) ->
  exists b w1 w2,
    read R buf N w = Ok (b, w1)
    /\ single_read R buf N w = Ok (b, w2)
    /\ (forall j, 0 <= j < N -> b !! Z.to_nat j = Some (Some (regs w (Int.uint8 (R + j)))))
    /\ drop (Z.to_nat N) b = drop (Z.to_nat N) buf
    /\ length b = length buf
    /\ read_post w R N w1.
Proof.
  intros Hf HC Hc HR HN Hbuf.
  destruct (read_ok R buf N w Hf ltac:(lia) HR ltac:(lia) Hbuf)
    as (w1 & Hrun & Hpost).
  set (b := map Some (dev_bytes (regs w) R (Z.to_nat N)) ++ drop (Z.to_nat N) buf) in *.
  assert (Hsingle : exists w2, single_read R buf N w = Ok (b, w2)).
  { unfold single_read, bind at 1.
    destruct (i2c_write_reg R w Hf) as (v1 & -> & (A & C' & R' & F') & Hp & Ht).
    unfold bind at 1.
    destruct (i2c_read_ok "buf" buf N v1 ltac:(congruence) Hbuf) as (v2 & -> & _).
    unfold ret. cbn [snd]. exists v2.
    rewrite R', Hp, dev_bytes_uint8. reflexivity. }
  destruct Hsingle as (w2 & Hsingle).
  exists b, w1, w2.
  split; [assumption|]. split; [assumption|].
  split; [|split; [|split; [|assumption]]].
  - intros j Hj. unfold b.
    rewrite lookup_app_l by (rewrite length_map, dev_bytes_length; lia).
    rewrite lookup_map, dev_bytes_lookup by lia.
    simpl. rewrite Z2Nat.id by lia. reflexivity.
  - unfold b. rewrite drop_app_length' by (rewrite length_map, dev_bytes_length; lia).
    reflexivity.
  - unfold b. rewrite length_app, length_map, dev_bytes_length, length_drop. lia.
Qed.

Lemma read_chunked_same_as_single_witness :
  (faults (bench 7) = [] /\ chunk (bench 7) = 7 /\ 1 <= 7 /\ 0 <= 0x10 < 256
   /\ 1 <= 8 < 256 /\ 8 <= Z.of_nat (length (repeat (@None Z) 8)))
  /\ exists b w1 w2,
    read 0x10 (repeat None 8) 8 (bench 7) = Ok (b, w1)
    /\ single_read 0x10 (repeat None 8) 8 (bench 7) = Ok (b, w2)
    /\ (forall j, 0 <= j < 8 ->
        b !! Z.to_nat j = Some (Some (regs (bench 7) (Int.uint8 (0x10 + j)))))
    /\ drop (Z.to_nat 8) b = drop (Z.to_nat 8) (repeat None 8)
    /\ length b = length (repeat (@None Z) 8)
    /\ read_post (bench 7) 0x10 8 w1.
Proof.
  split; [repeat split; simpl; lia|].
  apply (read_chunked_same_as_single 0x10 8 7 (repeat None 8) (bench 7));
    first [reflexivity | simpl; lia].
Defined.

(** ** The test benches *)

Lemma byte_regs_bench (c : Z) : byte_regs (bench c).
Proof.
  intros a Ha. exact Ha.
Defined.


Lemma byte_regs_thermistor_bench : byte_regs thermistor_bench.
Proof.
  intros a Ha. simpl.
  destruct (a =? 14); [lia|]. destruct (a =? 15); lia.
Defined.

(** ** The pixel frame *)

Lemma load_some (name : string) (data : list Z) (i : Z) :
  0 <= i < Z.of_nat (length data) ->
  load name (map Some data) i = Ok (nth (Z.to_nat i) data 0).
Proof.
  intros Hi. unfold load. rewrite lookup_map.
  destruct (lookup_lt_is_Some_2 data (Z.to_nat i) ltac:(lia)) as [b Hb].
  rewrite Hb. simpl. f_equal. symmetry. apply nth_lookup_Some with (d := 0) in Hb.
  exact Hb.
Qed.

Lemma load_past_end (name : string) (data : list Z) (i : Z) :
  Z.of_nat (length data) <= i ->
  load name (map Some data) i = Err (OutOfBounds name i).
Proof.
  intros Hi. unfold load. rewrite lookup_map, lookup_ge_None_2 by lia. reflexivity.
Qed.

Lemma lookup_upfrom (n : nat) : forall (z : Z) (j : nat),
  (j < n)%nat -> upfrom z n !! j = Some (z + Z.of_nat j).
Proof.
  induction n as [|n IH]; intros z j Hj; [lia|].
  destruct j as [|j]; simpl.
  - f_equal. lia.
  - rewrite IH by lia. f_equal. lia.
Qed.

Lemma upfrom_length (n : nat) : forall z, length (upfrom z n) = n.
Proof. induction n as [|n IH]; intros z; simpl; [reflexivity | now rewrite IH]. Qed.

Lemma convert_pixels_ok (data : list Z) (n : nat) :
  forall (i : Z) (buf : list F.float),
    0 <= i -> 2 * (i + Z.of_nat n) <= Z.of_nat (length data) ->
    i + Z.of_nat n <= 128 -> i + Z.of_nat n <= Z.of_nat (length buf) ->
    convert_pixels n i (map Some data) buf
    = Ok (take (Z.to_nat i) buf
            ++ map (fun k => pixel_temp (raw_word data k)) (upfrom i n)
            ++ drop (Z.to_nat i + n) buf).
Proof.
  induction n as [|n IH]; intros i buf Hi Hdata H128 Hbuf.
  - simpl. rewrite Nat.add_0_r, take_drop. reflexivity.
  - cbn [convert_pixels].
    assert (Hpos : Int.uint8 (Z.shiftl i 1) = 2 * i).
    { rewrite Z.shiftl_mul_pow2 by lia. unfold Int.uint8.
      rewrite Z.mod_small; lia. }
    rewrite Hpos. unfold recast_word.
    rewrite !load_some by lia.
    replace (i <? Z.of_nat (length buf)) with true by (symmetry; apply Z.ltb_lt; lia).
    rewrite IH by (rewrite ?length_insert; lia).
    f_equal.
    replace (Z.to_nat (i + 1)) with (S (Z.to_nat i)) by lia.
    rewrite (take_S_r _ (Z.to_nat i) (pixel_temp (raw_word data i)))
      by (apply list_lookup_insert_eq; lia).
    rewrite take_insert_ge by lia.
    rewrite drop_insert_lt by lia.
    rewrite <- app_assoc. cbn [upfrom map app].
    rewrite Nat.add_succ_r. reflexivity.
Qed.

Lemma convert_pixels_overrun (data : list Z) (h : Z) (n : nat) :
  forall (i : Z) (buf : list F.float),
    Z.of_nat (length data) = 2 * h -> 0 <= i <= h -> h <= 64 ->
    h < i + Z.of_nat n -> i + Z.of_nat n <= Z.of_nat (length buf) ->
    convert_pixels n i (map Some data) buf = Err (OutOfBounds "rawArray" (2 * h + 1)).
Proof.
  induction n as [|n IH]; intros i buf Hdata Hi Hh Hn Hbuf; [lia|].
  cbn [convert_pixels].
  assert (Hpos : Int.uint8 (Z.shiftl i 1) = 2 * i).
  { rewrite Z.shiftl_mul_pow2 by lia. unfold Int.uint8.
    rewrite Z.mod_small; lia. }
  rewrite Hpos. unfold recast_word.
  destruct (Z.eq_dec i h) as [->|Hne].
  - rewrite load_past_end by lia. reflexivity.
  - rewrite !load_some by lia.
    replace (i <? Z.of_nat (length buf)) with true by (symmetry; apply Z.ltb_lt; lia).
    apply IH; rewrite ?length_insert; lia.
Qed.

Lemma lor_le16 (l h : Z) :
  0 <= l < 256 -> 0 <= h < 256 -> Z.lor (Int.uint16 (Z.shiftl h 8)) l = le16 l h.
Proof.
  intros Hl Hh. unfold Int.uint16, le16.
  rewrite Z.shiftl_mul_pow2 by lia.
  rewrite Z.mod_small by lia.
  rewrite <- Z.shiftl_mul_pow2 by lia.
  assert (Hland : Z.land (Z.shiftl h 8) l = 0).
  { apply Z.bits_inj'. intros n Hn. rewrite Z.land_spec, Z.bits_0.
    destruct (Z.lt_ge_cases n 8) as [Hlt|Hge].
    - rewrite Z.shiftl_spec_low by lia. reflexivity.
    - replace (Z.testbit l n) with false; [apply andb_false_r|].
      symmetry. apply Z.testbit_false; [lia|].
      rewrite Z.div_small; [reflexivity|].
      split; [lia|]. apply Z.lt_le_trans with (2 ^ 8); [lia|].
      apply Z.pow_le_mono_r; lia. }
  pose proof (Z.add_lor_land (Z.shiftl h 8) l) as Hadd.
  rewrite Hland, Z.add_0_r in Hadd. rewrite Hadd.
  rewrite Z.shiftl_mul_pow2 by lia. lia.
Qed.

Lemma pixel_checked : forallb pixel_check (upfrom 0 (Z.to_nat 4096)) = true.
Proof. vm_compute. reflexivity. Qed.

Lemma pixel_temp_value (w : Z) :
  F.in_units 2 (pixel_temp w) = Some (twos_complement_12 w).
Proof.
  pose proof (forallb_upfrom _ _ pixel_checked (w mod 4096)) as Hc.
  specialize (Hc ltac:(pose proof (Z.mod_pos_bound w 4096); lia)).
  unfold pixel_check, pixel_temp in Hc.
  rewrite int12ToFloat_low12, twos_complement_12_low12 in Hc.
  fold (pixel_temp w) in Hc.
  destruct (F.in_units 2 (pixel_temp w)) as [v|]; [|discriminate].
  apply Z.eqb_eq in Hc. now subst.
Qed.

Lemma dev_bytes_nth (r : Z -> Z) (p : Z) (n j : nat) :
  (j < n)%nat -> nth j (dev_bytes r p n) 0 = r (Int.uint8 (p + Z.of_nat j)).
Proof.
  intros Hj. apply nth_lookup_Some with (d := 0). now apply dev_bytes_lookup.
Qed.

Lemma pixel_bytes_small (n : Z) :
  0 <= n <= 64 ->
  Int.min (Int.uint8 (Z.shiftl n 1)) (Int.uint8 (Z.shiftl AMG88xx_PIXEL_ARRAY_SIZE 1)) = 2 * n.
Proof.
  intros Hn. rewrite Z.shiftl_mul_pow2 by lia.
  rewrite uint8_small by lia.
  change (Int.uint8 (Z.shiftl AMG88xx_PIXEL_ARRAY_SIZE 1)) with 128.
  unfold Int.min. destruct (Z.ltb_spec (n * 2 ^ 1) 128); lia.
Qed.

Lemma read_raw (reg n : Z) (w : World) :
  faults w = [] -> 1 <= chunk w -> 0 <= reg < 256 -> 0 <= n < 256 ->
  exists w',
    read reg (repeat None (Z.to_nat n)) n w
    = Ok (map Some (dev_bytes (regs w) reg (Z.to_nat n)), w')
    /\ read_post w reg n w'.
Proof.
  intros Hf Hc Hreg Hn.
  destruct (read_ok reg (repeat None (Z.to_nat n)) n w Hf Hc Hreg Hn) as (w' & Hrun & Hpost).
  { rewrite repeat_length. lia. }
  exists w'. split; [|assumption].
  rewrite Hrun, drop_ge, app_nil_r by (rewrite repeat_length; lia). reflexivity.
Qed.

(** C3: for every [n <= 64], on a bus without faults whose adapter moves at
    least one byte and with a destination of at least [n] entries,
    [readPixels buf n] returns; its requests are a write of [{0x80}] and
    then requests that ask for [2 * n] bytes in all;
    for every [i < n] entry [i] of the buffer becomes
    [int12ToFloat(word_i) * 0.25], where [word_i] is the little-endian word
    of device registers [0x80 + 2 * i] (low) and [0x80 + 2 * i + 1] (high),
    and that float is exactly the two's complement value of the low twelve
    bits of the word, in quarters of a degree; the entries at index [n] and
    above are unchanged. *)
Theorem readPixels_converts_frame (n : Z) (buf : list F.float) (w : World) :
  faults w = [] -> 1 <= chunk w -> byte_regs w ->
  0 <= n <= 64 -> n <= Z.of_nat (length buf) ->
  exists buf' w',
    readPixels buf n w = Ok (buf', w')
    /\ read_post w AMG88xx_PIXEL_OFFSET (2 * n) w'
    /\ (forall i, 0 <= i < n ->
        let word := le16 (regs w (AMG88xx_PIXEL_OFFSET + 2 * i))
                         (regs w (AMG88xx_PIXEL_OFFSET + 2 * i + 1)) in
        let temp := F.float_of_double
                      (F.dmul (F.double_of_float (int12ToFloat word))
                              AMG88xx_PIXEL_TEMP_CONVERSION) in
        buf' !! Z.to_nat i = Some temp
        /\ F.in_units 2 temp = Some (twos_complement_12 word))
    /\ drop (Z.to_nat n) buf' = drop (Z.to_nat n) buf
    /\ length buf' = length buf.
Proof.
  intros Hf Hc Hregs Hn Hbuf.
  unfold readPixels. rewrite pixel_bytes_small by assumption.
  unfold bind at 1.
  destruct (read_raw AMG88xx_PIXEL_OFFSET (2 * n) w Hf Hc) as (w' & -> & Hpost);
    [unfold AMG88xx_PIXEL_OFFSET; lia | lia |].
  unfold lift.
  set (data := dev_bytes (regs w) AMG88xx_PIXEL_OFFSET (Z.to_nat (2 * n))).
  assert (Hlen : length data = Z.to_nat (2 * n)) by apply dev_bytes_length.
  rewrite convert_pixels_ok by (rewrite ?Hlen; lia).
  change (Z.to_nat 0) with 0%nat. rewrite take_0, app_nil_l, Nat.add_0_l.
  eexists _, w'. split; [reflexivity|]. split; [assumption|].
  assert (Hword : forall i, 0 <= i < n ->
            raw_word data i = le16 (regs w (AMG88xx_PIXEL_OFFSET + 2 * i))
                                   (regs w (AMG88xx_PIXEL_OFFSET + 2 * i + 1))).
  { intros i Hi. unfold raw_word, data.
    rewrite !dev_bytes_nth by lia.
    rewrite !Z2Nat.id by lia.
    unfold AMG88xx_PIXEL_OFFSET in *.
    rewrite !uint8_small by lia.
    rewrite Z.add_assoc.
    apply lor_le16; apply Hregs; lia. }
  split; [|split].
  - intros i Hi. cbv zeta.
    set (word := le16 _ _).
    split; [|apply (pixel_temp_value word)].
    rewrite lookup_app_l by (rewrite length_map, upfrom_length; lia).
    rewrite lookup_map, lookup_upfrom by lia. simpl.
    rewrite Z2Nat.id, Hword by lia. reflexivity.
  - rewrite drop_app_length' by (rewrite length_map, upfrom_length; lia). reflexivity.
  - rewrite length_app, length_map, upfrom_length, length_drop. lia.
Qed.

Lemma readPixels_converts_frame_witness :
  (faults (bench 32) = [] /\ 1 <= chunk (bench 32) /\ byte_regs (bench 32)
   /\ 0 <= 64 <= 64 /\ 64 <= Z.of_nat (length (repeat F.pos_zero 64)))
  /\ exists buf' w',
    readPixels (repeat F.pos_zero 64) 64 (bench 32) = Ok (buf', w')
    /\ read_post (bench 32) AMG88xx_PIXEL_OFFSET (2 * 64) w'
    /\ (forall i, 0 <= i < 64 ->
        let word := le16 (regs (bench 32) (AMG88xx_PIXEL_OFFSET + 2 * i))
                         (regs (bench 32) (AMG88xx_PIXEL_OFFSET + 2 * i + 1)) in
        let temp := F.float_of_double
                      (F.dmul (F.double_of_float (int12ToFloat word))
                              AMG88xx_PIXEL_TEMP_CONVERSION) in
        buf' !! Z.to_nat i = Some temp
        /\ F.in_units 2 temp = Some (twos_complement_12 word))
    /\ drop (Z.to_nat 64) buf' = drop (Z.to_nat 64) (repeat F.pos_zero 64)
    /\ length buf' = length (repeat F.pos_zero 64).
Proof.
  split.
  - split; [reflexivity|]. split; [simpl; lia|]. split; [apply byte_regs_bench|].
    split; [lia | simpl; lia].
  - apply (readPixels_converts_frame 64 (repeat F.pos_zero 64) (bench 32));
      [reflexivity | simpl; lia | apply byte_regs_bench | lia | simpl; lia].
Defined.

Lemma thermistor_checked : forallb thermistor_check (upfrom 0 (Z.to_nat 4096)) = true.
Proof. vm_compute. reflexivity. Qed.

Lemma thermistor_temp_value (w : Z) :
  F.in_units 4 (thermistor_temp w) = Some (signed_mag_12 w).
Proof.
  pose proof (forallb_upfrom _ _ thermistor_checked (Z.land w 0xFFF)) as Hc.
  specialize (Hc ltac:(pose proof (low12_range w); lia)).
  unfold thermistor_check, thermistor_temp in Hc.
  rewrite signedMag12ToFloat_low12, signed_mag_12_low12 in Hc.
  fold (thermistor_temp w) in Hc.
  destruct (F.in_units 4 (thermistor_temp w)) as [v|]; [|discriminate].
  apply Z.eqb_eq in Hc. now subst.
Qed.

Lemma pixel_bytes_large (size : Z) :
  64 < size < 256 ->
  exists h,
    Int.min (Int.uint8 (Z.shiftl size 1)) (Int.uint8 (Z.shiftl AMG88xx_PIXEL_ARRAY_SIZE 1))
    = 2 * h /\ 0 <= h <= 64.
Proof.
  intros Hs. rewrite Z.shiftl_mul_pow2 by lia.
  change (Int.uint8 (Z.shiftl AMG88xx_PIXEL_ARRAY_SIZE 1)) with 128.
  unfold Int.uint8. change 256 with (128 * 2 ^ 1).
  rewrite Z.mul_mod_distr_r by lia.
  pose proof (Z.mod_pos_bound size 128 ltac:(lia)) as Hm.
  unfold Int.min.
  destruct (Z.ltb_spec (size mod 128 * 2 ^ 1) 128).
  - exists (size mod 128). lia.
  - exists 64. lia.
Qed.

(** C4, what the code does: for every [size] above 64 (with a destination
    long enough for [size] entries) the number of bytes read is reduced to
    at most 128, but the conversion loop still runs [size] times, and
    [readPixels] reads [rawArray] past its end, first at index
    [bytesToRead + 1]. *)
Theorem readPixels_oversize_overruns_raw (size : Z) (buf : list F.float) (w : World) :
  faults w = [] -> 1 <= chunk w ->
  64 < size < 256 -> size <= Z.of_nat (length buf) ->
  let bytesToRead :=
    Int.min (Int.uint8 (Z.shiftl size 1))
            (Int.uint8 (Z.shiftl AMG88xx_PIXEL_ARRAY_SIZE 1)) in
  bytesToRead <= 128
  /\ readPixels buf size w = Err (OutOfBounds "rawArray" (bytesToRead + 1)).
Proof.
  intros Hf Hc Hs Hbuf. cbv zeta. unfold readPixels.
  destruct (pixel_bytes_large size Hs) as (h & -> & Hh).
  split; [lia|].
  unfold bind at 1.
  destruct (read_raw AMG88xx_PIXEL_OFFSET (2 * h) w Hf Hc) as (w' & -> & _);
    [unfold AMG88xx_PIXEL_OFFSET; lia | lia |].
  unfold lift.
  rewrite (convert_pixels_overrun _ h); [reflexivity | | lia | lia | lia | lia].
  rewrite dev_bytes_length. lia.
Qed.

Lemma readPixels_oversize_overruns_raw_witness :
  (faults (bench 32) = [] /\ 1 <= chunk (bench 32) /\ 64 < 65 < 256
   /\ 65 <= Z.of_nat (length (repeat F.pos_zero 65)))
  /\ readPixels (repeat F.pos_zero 65) 65 (bench 32) = Err (OutOfBounds "rawArray" 129).
Proof.
  split.
  - split; [reflexivity|]. split; [simpl; lia|]. split; [lia | simpl; lia].
  - apply (readPixels_oversize_overruns_raw 65 (repeat F.pos_zero 65) (bench 32));
      [reflexivity | simpl; lia | lia | simpl; lia].
Defined.

(** [getInterrupt] does reduce its size: above 8 it is read as 8. *)
Lemma getInterrupt_oversize (size : Z) (buf : list cell) (w : World) :
  8 < size -> getInterrupt buf size w = getInterrupt buf 8 w.
Proof.
  intros Hs. unfold getInterrupt, Int.min.
  change (Int.uint8 8) with 8.
  destruct (Z.ltb_spec size 8); [lia|]. reflexivity.
Qed.

(** C6: on a bus without faults, [readThermistor] reads two bytes at
    [TTHL] ([0x0E]), takes the first as the low and the second as the high
    byte of a word, and returns [signedMag12ToFloat(word) * 0.0625], which
    is exactly the sign and magnitude value of the word in sixteenths of a
    degree; when the device holds [{0x10, 0x08}] the result is [-1.0]. *)
Theorem readThermistor_decodes (w : World) :
  faults w = [] -> 1 <= chunk w -> byte_regs w ->
  let word := le16 (regs w AMG88xx_TTHL) (regs w (AMG88xx_TTHL + 1)) in
  let temp := F.float_of_double
                (F.dmul (F.double_of_float (signedMag12ToFloat word))
                        AMG88xx_THERMISTOR_CONVERSION) in
  exists w',
    readThermistor w = Ok (temp, w')
    /\ read_post w AMG88xx_TTHL 2 w'
    /\ F.in_units 4 temp = Some (signed_mag_12 word)
    /\ (regs w AMG88xx_TTHL = 0x10 -> regs w (AMG88xx_TTHL + 1) = 0x08 ->
        temp = F.float_of_int (-1)).
Proof.
  intros Hf Hc Hregs. cbv zeta.
  unfold readThermistor, bind at 1.
  destruct (read_raw AMG88xx_TTHL 2 w Hf Hc) as (w' & Hrun & Hpost);
    [unfold AMG88xx_TTHL; lia | lia |].
  change (repeat None (Z.to_nat 2)) with [@None Z; None] in Hrun.
  rewrite Hrun. unfold bind at 1, lift, recast_word.
  rewrite !load_some by (rewrite dev_bytes_length; lia).
  rewrite !dev_bytes_nth by lia.
  unfold AMG88xx_TTHL in *. rewrite !uint8_small by lia.
  change (14 + Z.of_nat (Z.to_nat 1)) with (14 + 1).
  change (14 + Z.of_nat (Z.to_nat 0)) with 14.
  pose proof (Hregs 14 ltac:(lia)) as H14.
  pose proof (Hregs (14 + 1) ltac:(lia)) as H15.
  rewrite lor_le16 by assumption.
  exists w'. split; [reflexivity|]. split; [assumption|]. split.
  - apply (thermistor_temp_value (le16 (regs w 14) (regs w (14 + 1)))).
  - intros -> ->. reflexivity.
Qed.

Lemma readThermistor_decodes_witness :
  (faults thermistor_bench = [] /\ 1 <= chunk thermistor_bench
   /\ byte_regs thermistor_bench)
  /\ exists w',
    readThermistor thermistor_bench = Ok (F.float_of_int (-1), w')
    /\ read_post thermistor_bench AMG88xx_TTHL 2 w'
    /\ F.in_units 4 (F.float_of_int (-1)) = Some (signed_mag_12 0x0810).
Proof.
  split.
  - split; [reflexivity|]. split; [simpl; lia | apply byte_regs_thermistor_bench].
  - destruct (readThermistor_decodes thermistor_bench)
      as (w' & Hrun & Hpost & Hval & Hminus);
      [reflexivity | simpl; lia | apply byte_regs_thermistor_bench |].
    exists w'. split; [|split].
    + rewrite Hrun. rewrite (Hminus eq_refl eq_refl). reflexivity.
    + exact Hpost.
    + reflexivity.
Defined.

(** C8, as the code has it: with an adapter that moves at least one byte,
    [readPixels buf 0] makes two requests, a write of the register address
    [{0x80}] and a read of zero bytes, whatever their outcome, and leaves
    every entry of [buf] and every device register as it was. *)
Theorem readPixels_zero_requests (buf : list F.float) (w : World) :
  1 <= chunk w ->
  exists w',
    readPixels buf 0 w = Ok (buf, w')
    /\ trace w' = trace w ++ [I2CWrite [AMG88xx_PIXEL_OFFSET] true; I2CRead 0]
    /\ regs w' = regs w.
Proof.
  intros Hc. unfold readPixels.
  change (Int.min _ _) with 0. change (Z.to_nat 0) with 0%nat.
  unfold bind at 1, read, bind at 1, maxBufferSize.
  replace (0 <? chunk w) with true by (symmetry; apply Z.ltb_lt; lia).
  unfold bind, i2c_write, i2c_read, next_outcome, log, ret, lift.
  destruct (faults w) as [|[|] [|[|] rest]]; simpl;
    eexists; (split; [reflexivity|]); simpl; rewrite <- app_assoc; split; reflexivity.
Qed.

Lemma readPixels_zero_requests_witness :
  1 <= chunk (bench 32)
  /\ exists w',
    readPixels (repeat F.pos_zero 64) 0 (bench 32) = Ok (repeat F.pos_zero 64, w')
    /\ trace w' = trace (bench 32) ++ [I2CWrite [AMG88xx_PIXEL_OFFSET] true; I2CRead 0]
    /\ regs w' = regs (bench 32).
Proof.
  split; [simpl; lia|].
  apply (readPixels_zero_requests (repeat F.pos_zero 64) (bench 32)). simpl; lia.
Defined.

(** C8, as the spec has it, fails on the test bench: the log of
    [readPixels buf 0] is not empty. *)
Lemma readPixels_zero_bench :
  requests (readPixels (repeat F.pos_zero 64) 0 (bench 32))
  = [I2CWrite [0x80] true; I2CRead 0]
  /\ requests (readPixels (repeat F.pos_zero 64) 0 (bench 32)) <> [].
Proof. split; [reflexivity | discriminate]. Qed.

(** ** Initialisation and the mirrored registers *)

Lemma write8_logged (reg value : Z) (w : World) :
  exists w',
    write8 reg value w = Ok (tt, w')
    /\ trace w' = trace w ++ [I2CWrite [reg; value] true]
    /\ acks w' = acks w /\ chunk w' = chunk w.
Proof.
  unfold write8, write, bind, i2c_write, next_outcome, log, ret. simpl.
  destruct (faults w) as [|[|] rest]; simpl; eexists; repeat split.
Qed.

Lemma delay_logged (ms : Z) (w : World) :
  delay ms w = Ok (tt, log (Delay ms) w).
Proof. reflexivity. Qed.

Lemma begin_run (addr : Z) (d : Driver) (w : World) :
  acks w addr = true ->
  exists d' w',
    begin addr d w = Ok ((true, d'), w')
    /\ _intc d' = {| INTEN := false; INTMOD := INTMOD (_intc d) |}
    /\ trace w' = trace w
         ++ [I2CBegin addr;
             I2CWrite [AMG88xx_PCTL; AMG88xx_NORMAL_MODE] true;
             I2CWrite [AMG88xx_RST; AMG88xx_INITIAL_RESET] true;
             I2CWrite [AMG88xx_INTC; intc_get {| INTEN := false; INTMOD := INTMOD (_intc d) |}] true;
             I2CWrite [AMG88xx_FPSC; AMG88xx_FPS_10] true;
             Delay 100].
Proof.
  intros Hack. unfold begin, bind at 1, i2c_begin. rewrite Hack. cbn [negb].
  unfold bind at 1.
  destruct (write8_logged AMG88xx_PCTL (pctl_get (_pctl (set_pctl {| PCTL := bits8 AMG88xx_NORMAL_MODE |} d)))
              (log (I2CBegin addr) w)) as (w1 & -> & T1 & _).
  unfold bind at 1.
  match goal with |- context [write8 ?r ?v w1] =>
    destruct (write8_logged r v w1) as (w2 & -> & T2 & _) end.
  unfold bind at 1, disableInterrupt, bind at 1.
  match goal with |- context [write8 ?r ?v w2] =>
    destruct (write8_logged r v w2) as (w3 & -> & T3 & _) end.
  unfold ret at 1. unfold bind at 1.
  match goal with |- context [write8 ?r ?v w3] =>
    destruct (write8_logged r v w3) as (w4 & -> & T4 & _) end.
  unfold bind at 1. rewrite delay_logged. unfold ret.
  eexists _, _. split; [reflexivity|]. split; [reflexivity|].
  simpl. rewrite T4, T3, T2, T1. simpl. rewrite <- !app_assoc. reflexivity.
Qed.

(** C5: when the device answers at [addr] (as at [0x69]) and the mode bit
    of the interrupt control mirror is clear, as it is in a driver object
    that [begin] is the first to touch, [begin addr] requests, in this
    order, the writes [{0x00, 0x00}], [{0x01, 0x3F}], [{0x03, 0x00}] and
    [{0x02, 0x00}], then a delay of 100 ms, and returns [true]. *)
Theorem begin_wire_sequence (addr : Z) (d : Driver) (w : World) :
  acks w addr = true -> INTMOD (_intc d) = false ->
  exists d' w',
    begin addr d w = Ok ((true, d'), w')
    /\ trace w' = trace w
         ++ [I2CBegin addr;
             I2CWrite [0x00; 0x00] true; I2CWrite [0x01; 0x3F] true;
             I2CWrite [0x03; 0x00] true; I2CWrite [0x02; 0x00] true;
             Delay 100].
Proof.
  intros Hack Hmod.
  destruct (begin_run addr d w Hack) as (d' & w' & Hrun & _ & Ht).
  exists d', w'. split; [assumption|].
  rewrite Ht, Hmod. reflexivity.
Qed.

Lemma begin_wire_sequence_witness :
  (acks (bench 32) 0x69 = true /\ INTMOD (_intc zero_driver) = false)
  /\ exists d' w',
    begin 0x69 zero_driver (bench 32) = Ok ((true, d'), w')
    /\ trace w' = trace (bench 32)
         ++ [I2CBegin 0x69;
             I2CWrite [0x00; 0x00] true; I2CWrite [0x01; 0x3F] true;
             I2CWrite [0x03; 0x00] true; I2CWrite [0x02; 0x00] true;
             Delay 100].
Proof.
  split; [split; reflexivity|].
  apply (begin_wire_sequence 0x69 zero_driver (bench 32)); reflexivity.
Defined.

(** C10: [begin] returns [true] whenever the adapter's [begin()] succeeds,
    whatever the outcomes [script] of the transactions that follow: the
    four register writes are all requested, in order, and the delay is
    made. *)
Theorem begin_true_whatever_the_writes_do (addr : Z) (d : Driver) (w : World)
    (script : list bool) :
  acks w addr = true ->
  exists d' w',
    begin addr d (with_faults script w) = Ok ((true, d'), w')
    /\ exists b, trace w' = trace w
         ++ [I2CBegin addr;
             I2CWrite [AMG88xx_PCTL; AMG88xx_NORMAL_MODE] true;
             I2CWrite [AMG88xx_RST; AMG88xx_INITIAL_RESET] true;
             I2CWrite [AMG88xx_INTC; b] true;
             I2CWrite [AMG88xx_FPSC; AMG88xx_FPS_10] true;
             Delay 100].
Proof.
  intros Hack.
  destruct (begin_run addr d (with_faults script w) Hack) as (d' & w' & Hrun & _ & Ht).
  exists d', w'. split; [assumption|]. eexists. exact Ht.
Qed.

Lemma begin_true_whatever_the_writes_do_witness :
  acks (bench 32) 0x69 = true
  /\ exists d' w',
    begin 0x69 zero_driver (with_faults [false; false; false; false] (bench 32))
    = Ok ((true, d'), w')
    /\ exists b, trace w' = trace (bench 32)
         ++ [I2CBegin 0x69;
             I2CWrite [AMG88xx_PCTL; AMG88xx_NORMAL_MODE] true;
             I2CWrite [AMG88xx_RST; AMG88xx_INITIAL_RESET] true;
             I2CWrite [AMG88xx_INTC; b] true;
             I2CWrite [AMG88xx_FPSC; AMG88xx_FPS_10] true;
             Delay 100].
Proof.
  split; [reflexivity|].
  apply (begin_true_whatever_the_writes_do 0x69 zero_driver (bench 32)
           [false; false; false; false]).
  reflexivity.
Defined.

(** When the adapter does not come up, [begin] returns [false] and writes
    nothing. *)
Lemma begin_init_failure (addr : Z) (d : Driver) (w : World) :
  acks w addr = false ->
  begin addr d w = Ok ((false, d), log (I2CBegin addr) w).
Proof.
  intros Hack. unfold begin, bind, i2c_begin. rewrite Hack. reflexivity.
Qed.

(** A write that fails is requested all the same and does not reach the
    device. *)
Lemma failed_write_not_stored (reg value : Z) (w : World) (script : list bool) :
  exists w',
    write8 reg value (with_faults (false :: script) w) = Ok (tt, w')
    /\ regs w' = regs w /\ faults w' = script.
Proof.
  unfold write8, write, bind, i2c_write, next_outcome, log, ret, with_faults. simpl.
  eexists. repeat split.
Qed.

Lemma intc_get_bits (r : intc) :
  Z.testbit (intc_get r) 0 = INTEN r /\ Z.testbit (intc_get r) 1 = INTMOD r
  /\ 0 <= intc_get r < 4.
Proof. destruct r as [[|] [|]]; vm_compute; repeat split; congruence. Qed.

Lemma ave_get_bits (r : ave) :
  Z.testbit (ave_get r) 5 = MAMOD r /\ (ave_get r = 0 \/ ave_get r = 32).
Proof. destruct r as [[|]]; vm_compute; auto. Qed.

Lemma bit1_b2z (mode : Z) : 0 <= mode <= 1 -> Z.b2z (bit1 mode) = mode.
Proof.
  intros H. assert (mode = 0 \/ mode = 1) as [-> | ->] by lia; reflexivity.
Qed.

(** For any [mode], the one-bit field keeps the low bit of [mode]. *)
Lemma setInterruptMode_low_bit (mode : Z) (d : Driver) (w : World) :
  exists d' w',
    setInterruptMode mode d w = Ok (d', w') /\ Z.b2z (INTMOD (_intc d')) = mode mod 2.
Proof.
  unfold setInterruptMode, bind.
  match goal with |- context [write8 ?r ?v w] =>
    destruct (write8_logged r v w) as (w' & -> & _) end.
  unfold ret. eexists _, w'. split; [reflexivity|].
  cbn [_intc set_intc INTMOD]. unfold bit1.
  rewrite Zmod_odd. destruct (Z.odd mode); reflexivity.
Qed.

Lemma level_lo_byte (conv : Z) : lvl_lo_get (level_lo conv) = Z.land conv 0xFF.
Proof.
  unfold lvl_lo_get, level_lo, bits8. cbn [LVL8].
  rewrite <- Z.land_assoc, Z.land_diag. reflexivity.
Qed.

Lemma level_hi_zero (conv : Z) : lvl_hi_get (level_hi conv) = 0.
Proof.
  unfold lvl_hi_get, level_hi, bits4. cbn [LVL4].
  change 0xF with (Z.ones 4). rewrite !Z.land_ones by lia.
  rewrite Z.shiftr_div_pow2 by lia.
  rewrite Z.div_small by (apply Z.mod_pos_bound; lia).
  reflexivity.
Qed.

Lemma level_hi_field (conv : Z) : LVL4 (level_hi conv) = Z.shiftr (Z.land conv 0xF) 4.
Proof.
  pose proof (level_hi_zero conv) as Hz. unfold lvl_hi_get in Hz. rewrite Hz.
  change 0xF with (Z.ones 4). rewrite Z.land_ones by lia.
  rewrite Z.shiftr_div_pow2 by lia.
  rewrite Z.div_small by (apply Z.mod_pos_bound; lia).
  reflexivity.
Qed.

Lemma setInterruptLevels_run (int_bits : Z) (high low hysteresis : F.float)
    (d : Driver) (w : World) (kh kl ky : Z) :
  level_conv int_bits high = Ok kh ->
  level_conv int_bits low = Ok kl ->
  level_conv int_bits hysteresis = Ok ky ->
  exists w',
    setInterruptLevels int_bits high low hysteresis d w
    = Ok (set_ihys (level_lo ky) (level_hi ky)
            (set_intl (level_lo kl) (level_hi kl)
               (set_inth (level_lo kh) (level_hi kh) d)), w')
    /\ trace w' = trace w
         ++ [I2CWrite [AMG88xx_INTHL; lvl_lo_get (level_lo kh)] true;
             I2CWrite [AMG88xx_INTHH; lvl_hi_get (level_hi kh)] true;
             I2CWrite [AMG88xx_INTLL; lvl_lo_get (level_lo kl)] true;
             I2CWrite [AMG88xx_INTLH; lvl_hi_get (level_hi kl)] true;
             I2CWrite [AMG88xx_IHYSL; lvl_lo_get (level_lo ky)] true;
             I2CWrite [AMG88xx_IHYSH; lvl_hi_get (level_hi ky)] true].
Proof.
  intros Hh Hl Hy. unfold setInterruptLevels.
  unfold bind at 1, lift at 1. rewrite Hh.
  unfold bind at 1.
  match goal with |- context [write8 ?r ?v w] =>
    destruct (write8_logged r v w) as (w1 & -> & T1 & _) end.
  unfold bind at 1.
  match goal with |- context [write8 ?r ?v w1] =>
    destruct (write8_logged r v w1) as (w2 & -> & T2 & _) end.
  unfold bind at 1, lift at 1. rewrite Hl.
  unfold bind at 1.
  match goal with |- context [write8 ?r ?v w2] =>
    destruct (write8_logged r v w2) as (w3 & -> & T3 & _) end.
  unfold bind at 1.
  match goal with |- context [write8 ?r ?v w3] =>
    destruct (write8_logged r v w3) as (w4 & -> & T4 & _) end.
  unfold bind at 1, lift at 1. rewrite Hy.
  unfold bind at 1.
  match goal with |- context [write8 ?r ?v w4] =>
    destruct (write8_logged r v w4) as (w5 & -> & T5 & _) end.
  unfold bind at 1.
  match goal with |- context [write8 ?r ?v w5] =>
    destruct (write8_logged r v w5) as (w6 & -> & T6 & _) end.
  unfold ret. exists w6. split; [reflexivity|].
  rewrite T6, T5, T4, T3, T2, T1. cbn. rewrite <- !app_assoc. reflexivity.
Qed.

Lemma begin_result (addr : Z) (d : Driver) (w : World) :
  acks w addr = true ->
  exists w',
    begin addr d w
    = Ok ((true,
           set_fpsc {| FPS := bit1 AMG88xx_FPS_10 |}
             (set_intc {| INTEN := bit1 0; INTMOD := INTMOD (_intc d) |}
                (set_rst {| RST := bits8 AMG88xx_INITIAL_RESET |}
                   (set_pctl {| PCTL := bits8 AMG88xx_NORMAL_MODE |} d)))), w').
Proof.
  intros Hack. unfold begin, bind at 1, i2c_begin. rewrite Hack. cbn [negb].
  unfold bind at 1.
  match goal with |- context [write8 ?r ?b ?u] =>
    destruct (write8_logged r b u) as (v1 & -> & _) end.
  unfold bind at 1.
  match goal with |- context [write8 ?r ?b v1] =>
    destruct (write8_logged r b v1) as (v2 & -> & _) end.
  unfold bind at 1, disableInterrupt, bind at 1.
  match goal with |- context [write8 ?r ?b v2] =>
    destruct (write8_logged r b v2) as (v3 & -> & _) end.
  unfold ret at 1. unfold bind at 1.
  match goal with |- context [write8 ?r ?b v3] =>
    destruct (write8_logged r b v3) as (v4 & -> & _) end.
  unfold bind at 1. rewrite delay_logged. unfold ret.
  eexists. reflexivity.
Qed.

(** C9: every write of a field of a mirror leaves the other fields and the
    other mirrors as they were, and the mirror then holds the value
    written.  [enableInterrupt] and [disableInterrupt] set [INTEN] of the
    [INTC] mirror to 1 and to 0 and keep [INTMOD]; [setInterruptMode mode],
    for a mode 0 or 1, sets [INTMOD] to [mode] and keeps [INTEN] (the same
    holds of the bits of the packed byte, which is the byte written to the
    device); [setMovingAverageMode] sets [MAMOD] of the [AVE] mirror;
    [clearInterrupt] sets the [RST] mirror to [FLAG_RESET];
    [setInterruptLevels] sets the six threshold mirrors to the values it
    assigns, [k & 0xFF] and [(k & 0xF) >> 4] of each clamped value [k];
    [begin] sets the [PCTL], [RST] and [FPSC] mirrors to [NORMAL_MODE],
    [INITIAL_RESET] and [FPS_10], clears [INTEN] and keeps [INTMOD]. *)
Theorem bitfield_write_keeps_other_fields (d : Driver) (w : World) (mode : Z) (on : bool)
    (addr int_bits : Z) (high low hysteresis : F.float) (kh kl ky : Z) :
  0 <= mode <= 1 ->
  acks w addr = true ->
  level_conv int_bits high = Ok kh ->
  level_conv int_bits low = Ok kl ->
  level_conv int_bits hysteresis = Ok ky ->
  (exists d' w',
      enableInterrupt d w = Ok (d', w')
      /\ INTEN (_intc d') = true /\ INTMOD (_intc d') = INTMOD (_intc d)
      /\ Z.testbit (intc_get (_intc d')) 0 = true
      /\ Z.testbit (intc_get (_intc d')) 1 = Z.testbit (intc_get (_intc d)) 1
      /\ same_but_intc d d'
      /\ trace w' = trace w ++ [I2CWrite [AMG88xx_INTC; intc_get (_intc d')] true])
  /\ (exists d' w',
      disableInterrupt d w = Ok (d', w')
      /\ INTEN (_intc d') = false /\ INTMOD (_intc d') = INTMOD (_intc d)
      /\ Z.testbit (intc_get (_intc d')) 0 = false
      /\ Z.testbit (intc_get (_intc d')) 1 = Z.testbit (intc_get (_intc d)) 1
      /\ same_but_intc d d'
      /\ trace w' = trace w ++ [I2CWrite [AMG88xx_INTC; intc_get (_intc d')] true])
  /\ (exists d' w',
      setInterruptMode mode d w = Ok (d', w')
      /\ Z.b2z (INTMOD (_intc d')) = mode /\ INTEN (_intc d') = INTEN (_intc d)
      /\ Z.b2z (Z.testbit (intc_get (_intc d')) 1) = mode
      /\ Z.testbit (intc_get (_intc d')) 0 = Z.testbit (intc_get (_intc d)) 0
      /\ same_but_intc d d'
      /\ trace w' = trace w ++ [I2CWrite [AMG88xx_INTC; intc_get (_intc d')] true])
  /\ (exists d' w',
      setMovingAverageMode on d w = Ok (d', w')
      /\ MAMOD (_ave d') = on
      /\ Z.testbit (ave_get (_ave d')) 5 = on
      /\ same_but_ave d d'
      /\ trace w' = trace w ++ [I2CWrite [AMG88xx_AVE; ave_get (_ave d')] true])
  /\ (exists d' w',
      clearInterrupt d w = Ok (d', w')
      /\ RST (_rst d') = AMG88xx_FLAG_RESET
      /\ rst_get (_rst d') = AMG88xx_FLAG_RESET
      /\ same_but_rst d d'
      /\ trace w' = trace w ++ [I2CWrite [AMG88xx_RST; rst_get (_rst d')] true])
  /\ (exists d' w',
      setInterruptLevels int_bits high low hysteresis d w = Ok (d', w')
      /\ LVL8 (_inthl d') = Z.land kh 0xFF
      /\ LVL4 (_inthh d') = Z.shiftr (Z.land kh 0xF) 4
      /\ LVL8 (_intll d') = Z.land kl 0xFF
      /\ LVL4 (_intlh d') = Z.shiftr (Z.land kl 0xF) 4
      /\ LVL8 (_ihysl d') = Z.land ky 0xFF
      /\ LVL4 (_ihysh d') = Z.shiftr (Z.land ky 0xF) 4
      /\ same_but_levels d d'
      /\ trace w' = trace w
           ++ [I2CWrite [AMG88xx_INTHL; lvl_lo_get (_inthl d')] true;
               I2CWrite [AMG88xx_INTHH; lvl_hi_get (_inthh d')] true;
               I2CWrite [AMG88xx_INTLL; lvl_lo_get (_intll d')] true;
               I2CWrite [AMG88xx_INTLH; lvl_hi_get (_intlh d')] true;
               I2CWrite [AMG88xx_IHYSL; lvl_lo_get (_ihysl d')] true;
               I2CWrite [AMG88xx_IHYSH; lvl_hi_get (_ihysh d')] true])
  /\ (exists d' w',
      begin addr d w = Ok ((true, d'), w')
      /\ PCTL (_pctl d') = AMG88xx_NORMAL_MODE
      /\ RST (_rst d') = AMG88xx_INITIAL_RESET
      /\ FPS (_fpsc d') = false
      /\ fpsc_get (_fpsc d') = AMG88xx_FPS_10
      /\ INTEN (_intc d') = false /\ INTMOD (_intc d') = INTMOD (_intc d)
      /\ same_but_begin d d').
Proof.
  intros Hmode Hack Hh Hl Hy.
  destruct (intc_get_bits (_intc d)) as (B0 & B1 & _).
  split; [|split; [|split; [|split; [|split; [|split]]]]].
  - unfold enableInterrupt, bind.
    match goal with |- context [write8 ?r ?v w] =>
      destruct (write8_logged r v w) as (w' & -> & T & _) end.
    unfold ret. eexists _, w'. split; [reflexivity|].
    rewrite B1. cbn. destruct (INTMOD (_intc d)); repeat split; assumption.
  - unfold disableInterrupt, bind.
    match goal with |- context [write8 ?r ?v w] =>
      destruct (write8_logged r v w) as (w' & -> & T & _) end.
    unfold ret. eexists _, w'. split; [reflexivity|].
    rewrite B1. cbn. destruct (INTMOD (_intc d)); repeat split; assumption.
  - unfold setInterruptMode, bind.
    match goal with |- context [write8 ?r ?v w] =>
      destruct (write8_logged r v w) as (w' & -> & T & _) end.
    unfold ret. eexists _, w'. split; [reflexivity|].
    rewrite B0. cbn [_intc set_intc INTEN INTMOD].
    destruct (intc_get_bits {| INTEN := INTEN (_intc d); INTMOD := bit1 mode |}) as (C0 & C1 & _).
    rewrite C0, C1. cbn [INTEN INTMOD]. rewrite bit1_b2z by assumption.
    repeat split; assumption.
  - unfold setMovingAverageMode, bind.
    match goal with |- context [write8 ?r ?v w] =>
      destruct (write8_logged r v w) as (w' & -> & T & _) end.
    unfold ret. eexists _, w'. split; [reflexivity|].
    cbn [_ave set_ave MAMOD].
    destruct (ave_get_bits {| MAMOD := on |}) as (A5 & _). rewrite A5.
    repeat split; assumption.
  - unfold clearInterrupt, bind.
    match goal with |- context [write8 ?r ?v w] =>
      destruct (write8_logged r v w) as (w' & -> & T & _) end.
    unfold ret. eexists _, w'. split; [reflexivity|].
    repeat split; assumption.
  - destruct (setInterruptLevels_run int_bits high low hysteresis d w kh kl ky Hh Hl Hy)
      as (w' & Hrun & Ht).
    eexists _, w'. split; [exact Hrun|].
    repeat split;
      first [exact (level_lo_byte _) | exact (level_hi_field _) | exact Ht].
  - destruct (begin_result addr d w Hack) as (w' & Hrun).
    eexists _, w'. split; [exact Hrun|]. repeat split.
Qed.

Lemma bitfield_write_keeps_other_fields_witness :
  (0 <= 1 <= 1 /\ acks (bench 32) 0x69 = true
   /\ level_conv 32 (F.float_of_int 30) = Ok 120
   /\ level_conv 32 (F.float_of_int 10) = Ok 40
   /\ level_conv 32 (F.float_of_int 28) = Ok 112)
  /\ (exists d' w',
      setInterruptMode 1 zero_driver (bench 32) = Ok (d', w')
      /\ Z.b2z (INTMOD (_intc d')) = 1 /\ INTEN (_intc d') = INTEN (_intc zero_driver)
      /\ Z.b2z (Z.testbit (intc_get (_intc d')) 1) = 1
      /\ Z.testbit (intc_get (_intc d')) 0 = Z.testbit (intc_get (_intc zero_driver)) 0
      /\ same_but_intc zero_driver d'
      /\ trace w' = trace (bench 32) ++ [I2CWrite [AMG88xx_INTC; intc_get (_intc d')] true])
  /\ (exists d' w',
      clearInterrupt zero_driver (bench 32) = Ok (d', w')
      /\ RST (_rst d') = AMG88xx_FLAG_RESET
      /\ rst_get (_rst d') = AMG88xx_FLAG_RESET
      /\ same_but_rst zero_driver d'
      /\ trace w' = trace (bench 32) ++ [I2CWrite [AMG88xx_RST; rst_get (_rst d')] true]).
Proof.
  split; [repeat split; lia|].
  destruct (bitfield_write_keeps_other_fields zero_driver (bench 32) 1 true 0x69 32
              (F.float_of_int 30) (F.float_of_int 10) (F.float_of_int 28) 120 40 112)
    as (_ & _ & Hmode & _ & Hclear & _);
    [lia | reflexivity | reflexivity | reflexivity | reflexivity |].
  split; assumption.
Defined.

(** C1, what the code does: for every clamped value [conv] the low-byte
    register receives [conv & 0xFF], but the high-nibble register receives
    [(conv & 0xF) >> 4], which is 0 for every [conv].  At the limits 1024.0,
    -1024.0 and 972.0 the value for the high limit is 4095, whose upper four
    bits are [0x0F], and the six bytes written are [0xFF], [0x00], [0x01],
    [0x00], [0x30], [0x00]. *)
Theorem setInterruptLevels_high_nibble_lost :
  (forall conv, lvl_lo_get (level_lo conv) = Z.land conv 0xFF
                /\ lvl_hi_get (level_hi conv) = 0)
  /\ level_conv 32 (F.float_of_int 1024) = Ok 4095
  /\ Z.land (Z.shiftr 4095 8) 0x0F = 0x0F
  /\ requests (setInterruptLevels 32 (F.float_of_int 1024) (F.float_of_int (-1024))
                 (F.float_of_int 972) zero_driver (bench 32))
     = [I2CWrite [AMG88xx_INTHL; 0xFF] true; I2CWrite [AMG88xx_INTHH; 0x00] true;
        I2CWrite [AMG88xx_INTLL; 0x01] true; I2CWrite [AMG88xx_INTLH; 0x00] true;
        I2CWrite [AMG88xx_IHYSL; 0x30] true; I2CWrite [AMG88xx_IHYSH; 0x00] true].
Proof.
  split; [intros conv; split; [apply level_lo_byte | apply level_hi_zero]|].
  repeat split; vm_compute; reflexivity.
Qed.

(** * Further properties of the driver *)

(** ** The decoders *)

Lemma float_eqb_eq (x y : spec_float) : float_eqb x y = true -> x = y.
Proof.
  destruct x as [a|a| |a m e], y as [b|b| |b m' e']; simpl; try discriminate; intros H.
  - apply eqb_prop in H. now subst.
  - apply eqb_prop in H. now subst.
  - reflexivity.
  - apply andb_prop in H as [H He]. apply andb_prop in H as [Ha Hm].
    apply eqb_prop in Ha. apply Pos.eqb_eq in Hm. apply Z.eqb_eq in He. now subst.
Qed.

Lemma twos_complement_12_range (w : Z) : -2048 <= twos_complement_12 w <= 2047.
Proof.
  unfold twos_complement_12.
  pose proof (Z.mod_pos_bound w 4096 ltac:(lia)).
  destruct (Z.ltb_spec (w mod 4096) 2048); lia.
Qed.

Lemma int12_checked : forallb int12_check (upfrom 0 (Z.to_nat 4096)) = true.
Proof. vm_compute. reflexivity. Qed.

(** X1: for every word, [int12ToFloat] returns exactly the integer the low
    twelve bits denote in two's complement, between -2048 and 2047; the
    upper four bits of the word do not count. *)
Theorem int12ToFloat_sign_extends (w : Z) :
  F.in_units 0 (int12ToFloat w) = Some (twos_complement_12 w)
  /\ -2048 <= twos_complement_12 w <= 2047
  /\ int12ToFloat (w + 4096) = int12ToFloat w.
Proof.
  split; [|split; [apply twos_complement_12_range|]].
  - pose proof (forallb_upfrom _ _ int12_checked (w mod 4096)) as Hc.
    specialize (Hc ltac:(pose proof (Z.mod_pos_bound w 4096); lia)).
    unfold int12_check in Hc.
    rewrite int12ToFloat_low12, twos_complement_12_low12 in Hc.
    destruct (F.in_units 0 (int12ToFloat w)) as [v|]; [|discriminate].
    apply Z.eqb_eq in Hc. now subst.
  - rewrite <- (int12ToFloat_low12 (w + 4096)), <- (int12ToFloat_low12 w).
    replace (w + 4096) with (w + 1 * 4096) by lia.
    rewrite Z_mod_plus_full. reflexivity.
Qed.

Lemma mod_4096_land (w : Z) : w mod 4096 = Z.land w 0xFFF.
Proof. change 0xFFF with (Z.ones 12). rewrite Z.land_ones by lia. reflexivity. Qed.

Lemma agree_checked : forallb agree_check (upfrom 0 (Z.to_nat 4096)) = true.
Proof. vm_compute. reflexivity. Qed.

(** X2: on a word whose bit [0x800] is clear the two decoders return the
    same float. *)
Theorem decoders_agree_below_0x800 (w : Z) :
  Z.testbit w 11 = false -> int12ToFloat w = signedMag12ToFloat w.
Proof.
  intros Hbit.
  pose proof (forallb_upfrom _ _ agree_checked (Z.land w 0xFFF)) as Hc.
  specialize (Hc ltac:(pose proof (low12_range w); lia)).
  unfold agree_check in Hc.
  rewrite Z.land_spec, Hbit in Hc. cbn [andb orb] in Hc.
  apply float_eqb_eq in Hc.
  rewrite signedMag12ToFloat_low12, <- mod_4096_land, int12ToFloat_low12 in Hc.
  exact Hc.
Qed.

Lemma decoders_agree_below_0x800_witness :
  Z.testbit 0x7FF 11 = false /\ int12ToFloat 0x7FF = signedMag12ToFloat 0x7FF.
Proof.
  split; [reflexivity | apply (decoders_agree_below_0x800 0x7FF); reflexivity].
Defined.

(** ** The conversion of a limit *)

Lemma int_of_double_wider (bits : Z) (x : F.double) (z : Z) :
  16 <= bits -> F.int_of_double 16 x = Some z -> F.int_of_double bits x = Some z.
Proof.
  intros Hb. unfold F.int_of_double.
  destruct (F.trunc x) as [v|]; [|discriminate].
  destruct ((- 2 ^ (16 - 1) <=? v) && (v <? 2 ^ (16 - 1))) eqn:E; [|discriminate].
  intros [= <-].
  apply andb_prop in E as [El Eh].
  apply Z.leb_le in El. apply Z.ltb_lt in Eh.
  assert (Hp : 2 ^ (16 - 1) <= 2 ^ (bits - 1)) by (apply Z.pow_le_mono_r; lia).
  replace (- 2 ^ (bits - 1) <=? v) with true by (symmetry; apply Z.leb_le; lia).
  replace (v <? 2 ^ (bits - 1)) with true by (symmetry; apply Z.ltb_lt; lia).
  reflexivity.
Qed.

Lemma level_conv_wider (bits : Z) (limit : F.float) (k : Z) :
  16 <= bits -> level_conv 16 limit = Ok k -> level_conv bits limit = Ok k.
Proof.
  intros Hb. unfold level_conv.
  destruct (F.int_of_double 16 _) as [z|] eqn:E; [|discriminate].
  rewrite (int_of_double_wider bits _ z Hb E). auto.
Qed.

Lemma pixel_temp_low12 (w : Z) : pixel_temp (w mod 4096) = pixel_temp w.
Proof. unfold pixel_temp. rewrite int12ToFloat_low12. reflexivity. Qed.

Lemma round_trip_checked : forallb round_trip_check (upfrom 0 (Z.to_nat 4096)) = true.
Proof. vm_compute. reflexivity. Qed.

(** X3: a temperature as [readPixels] stores it, given back as a limit,
    converts to the twelve-bit count it was decoded from, for an [int] of
    sixteen bits or more: no pixel temperature is clamped or rounded. *)
Theorem pixel_temp_as_limit (int_bits w : Z) :
  16 <= int_bits -> level_conv int_bits (pixel_temp w) = Ok (twos_complement_12 w).
Proof.
  intros Hb. apply level_conv_wider; [assumption|].
  pose proof (forallb_upfrom _ _ round_trip_checked (w mod 4096)) as Hc.
  specialize (Hc ltac:(pose proof (Z.mod_pos_bound w 4096); lia)).
  unfold round_trip_check in Hc.
  rewrite pixel_temp_low12, twos_complement_12_low12 in Hc.
  destruct (level_conv 16 (pixel_temp w)) as [k|]; [|discriminate].
  apply Z.eqb_eq in Hc. now subst.
Qed.

Lemma pixel_temp_as_limit_witness :
  16 <= 32 /\ level_conv 32 (pixel_temp 0xFFF) = Ok (twos_complement_12 0xFFF).
Proof. split; [lia | apply (pixel_temp_as_limit 32 0xFFF); lia]. Defined.

(** X4: whenever the conversion of a limit is defined its result lies in
    [-4095, 4095], and the limit is neither a NaN nor an infinity. *)
Theorem level_conv_clamped (int_bits : Z) (limit : F.float) (k : Z) :
  level_conv int_bits limit = Ok k ->
  -4095 <= k <= 4095
  /\ limit <> S754_nan /\ (forall s, limit <> S754_infinity s).
Proof.
  unfold level_conv. intros H.
  destruct (F.int_of_double int_bits _) as [z|] eqn:E; [|discriminate].
  injection H as <-.
  split.
  - unfold Int.constrain.
    destruct (Z.ltb_spec z (-4095)); [lia|].
    destruct (Z.ltb_spec 4095 z); lia.
  - split; [|intros s]; intros ->; destruct int_bits; try destruct s; discriminate.
Qed.

Lemma level_conv_clamped_witness :
  level_conv 32 (F.float_of_int 10000) = Ok 4095
  /\ (-4095 <= 4095 <= 4095
      /\ F.float_of_int 10000 <> S754_nan
      /\ (forall s, F.float_of_int 10000 <> S754_infinity s)).
Proof.
  split; [reflexivity|].
  apply (level_conv_clamped 32 (F.float_of_int 10000) 4095). reflexivity.
Defined.

(** X5: when the three conversions are defined, [setInterruptLevels]
    requests exactly six writes, to registers [0x08] to [0x0D] in this
    order, whatever the outcome of each; the low-byte registers receive
    [k & 0xFF] for the clamped values [k] and the high registers the byte
    of their mirror; the mirrors of the other registers are unchanged. *)
Theorem setInterruptLevels_six_writes (int_bits : Z) (high low hysteresis : F.float)
    (d : Driver) (w : World) (kh kl ky : Z) :
  level_conv int_bits high = Ok kh ->
  level_conv int_bits low = Ok kl ->
  level_conv int_bits hysteresis = Ok ky ->
  exists d' w',
    setInterruptLevels int_bits high low hysteresis d w = Ok (d', w')
    /\ trace w' = trace w
         ++ [I2CWrite [AMG88xx_INTHL; Z.land kh 0xFF] true;
             I2CWrite [AMG88xx_INTHH; lvl_hi_get (_inthh d')] true;
             I2CWrite [AMG88xx_INTLL; Z.land kl 0xFF] true;
             I2CWrite [AMG88xx_INTLH; lvl_hi_get (_intlh d')] true;
             I2CWrite [AMG88xx_IHYSL; Z.land ky 0xFF] true;
             I2CWrite [AMG88xx_IHYSH; lvl_hi_get (_ihysh d')] true]
    /\ lvl_lo_get (_inthl d') = Z.land kh 0xFF
    /\ lvl_lo_get (_intll d') = Z.land kl 0xFF
    /\ lvl_lo_get (_ihysl d') = Z.land ky 0xFF
    /\ same_but_levels d d'.
Proof.
  intros Hh Hl Hy.
  destruct (setInterruptLevels_run int_bits high low hysteresis d w kh kl ky Hh Hl Hy)
    as (w' & Hrun & Ht).
  eexists _, w'. split; [exact Hrun|].
  cbn [_inthl _inthh _intll _intlh _ihysl _ihysh set_ihys set_intl set_inth].
  rewrite Ht, !level_lo_byte.
  repeat split.
Qed.

Lemma setInterruptLevels_six_writes_witness :
  (level_conv 32 (F.float_of_int 30) = Ok 120
   /\ level_conv 32 (F.float_of_int 10) = Ok 40
   /\ level_conv 32 (F.float_of_int 28) = Ok 112)
  /\ exists d' w',
    setInterruptLevels 32 (F.float_of_int 30) (F.float_of_int 10) (F.float_of_int 28)
      zero_driver (bench 32) = Ok (d', w')
    /\ trace w' = trace (bench 32)
         ++ [I2CWrite [AMG88xx_INTHL; Z.land 120 0xFF] true;
             I2CWrite [AMG88xx_INTHH; lvl_hi_get (_inthh d')] true;
             I2CWrite [AMG88xx_INTLL; Z.land 40 0xFF] true;
             I2CWrite [AMG88xx_INTLH; lvl_hi_get (_intlh d')] true;
             I2CWrite [AMG88xx_IHYSL; Z.land 112 0xFF] true;
             I2CWrite [AMG88xx_IHYSH; lvl_hi_get (_ihysh d')] true]
    /\ lvl_lo_get (_inthl d') = Z.land 120 0xFF
    /\ lvl_lo_get (_intll d') = Z.land 40 0xFF
    /\ lvl_lo_get (_ihysl d') = Z.land 112 0xFF
    /\ same_but_levels zero_driver d'.
Proof.
  split; [repeat split|].
  apply (setInterruptLevels_six_writes 32 (F.float_of_int 30) (F.float_of_int 10)
           (F.float_of_int 28) zero_driver (bench 32) 120 40 112); reflexivity.
Defined.

Lemma hysteresis_checked : forallb hysteresis_check (upfrom 0 (Z.to_nat 4096)) = true.
Proof. vm_compute. reflexivity. Qed.

Lemma whole_degree_checked : forallb whole_degree_check (upfrom 0 (Z.to_nat 4096)) = true.
Proof. vm_compute. reflexivity. Qed.

Lemma whole_degree_conv (int_bits t : Z) :
  16 <= int_bits -> -2048 <= t < 2048 ->
  level_conv int_bits (F.float_of_int t) = Ok (Int.constrain (4 * t) (-4095) 4095).
Proof.
  intros Hb Ht. apply level_conv_wider; [assumption|].
  pose proof (forallb_upfrom _ _ whole_degree_checked (t + 2048) ltac:(lia)) as Hc.
  unfold whole_degree_check in Hc.
  replace (t + 2048 - 2048) with t in Hc by lia.
  destruct (level_conv 16 _) as [k|]; [|discriminate].
  apply Z.eqb_eq in Hc. now subst.
Qed.

Lemma default_hysteresis_conv (int_bits t : Z) :
  16 <= int_bits -> -2048 <= t < 2048 ->
  level_conv int_bits (default_hysteresis (F.float_of_int t))
  = Ok (Int.constrain (Z.quot (19 * t) 5) (-4095) 4095).
Proof.
  intros Hb Ht. apply level_conv_wider; [assumption|].
  pose proof (forallb_upfrom _ _ hysteresis_checked (t + 2048) ltac:(lia)) as Hc.
  unfold hysteresis_check in Hc.
  replace (t + 2048 - 2048) with t in Hc by lia.
  destruct (level_conv 16 _) as [k|]; [|discriminate].
  apply Z.eqb_eq in Hc. now subst.
Qed.

(** X6: for a high limit of [t] whole degrees, [-2048 <= t < 2048], the
    two-argument [setInterruptLevels] converts the high limit to
    [4 * t] and its default hysteresis [high * .95] to [19 * t / 5] rounded
    toward zero, both clamped to [-4095, 4095], and writes their low bytes. *)
Theorem setInterruptLevels_default_whole_degrees (int_bits t : Z) (low : F.float)
    (d : Driver) (w : World) (kl : Z) :
  16 <= int_bits -> -2048 <= t < 2048 -> level_conv int_bits low = Ok kl ->
  let kh := Int.constrain (4 * t) (-4095) 4095 in
  let ky := Int.constrain (Z.quot (19 * t) 5) (-4095) 4095 in
  exists d' w',
    setInterruptLevels_default int_bits (F.float_of_int t) low d w = Ok (d', w')
    /\ lvl_lo_get (_inthl d') = Z.land kh 0xFF
    /\ lvl_lo_get (_intll d') = Z.land kl 0xFF
    /\ lvl_lo_get (_ihysl d') = Z.land ky 0xFF
    /\ same_but_levels d d'
    /\ trace w' = trace w
         ++ [I2CWrite [AMG88xx_INTHL; Z.land kh 0xFF] true;
             I2CWrite [AMG88xx_INTHH; lvl_hi_get (_inthh d')] true;
             I2CWrite [AMG88xx_INTLL; Z.land kl 0xFF] true;
             I2CWrite [AMG88xx_INTLH; lvl_hi_get (_intlh d')] true;
             I2CWrite [AMG88xx_IHYSL; Z.land ky 0xFF] true;
             I2CWrite [AMG88xx_IHYSH; lvl_hi_get (_ihysh d')] true].
Proof.
  intros Hb Ht Hl. cbv zeta.
  change (setInterruptLevels_default int_bits (F.float_of_int t) low d w)
    with (setInterruptLevels int_bits (F.float_of_int t) low
            (default_hysteresis (F.float_of_int t)) d w).
  destruct (setInterruptLevels_run int_bits (F.float_of_int t) low
              (default_hysteresis (F.float_of_int t)) d w _ kl _
              (whole_degree_conv int_bits t Hb Ht) Hl
              (default_hysteresis_conv int_bits t Hb Ht)) as (w' & Hrun & Htr).
  eexists _, w'. split; [exact Hrun|].
  cbn [_inthl _inthh _intll _intlh _ihysl _ihysh set_ihys set_intl set_inth].
  rewrite Htr, !level_lo_byte. repeat split.
Qed.

Lemma setInterruptLevels_default_whole_degrees_witness :
  (16 <= 32 /\ -2048 <= 30 < 2048 /\ level_conv 32 (F.float_of_int 10) = Ok 40)
  /\ exists d' w',
    setInterruptLevels_default 32 (F.float_of_int 30) (F.float_of_int 10)
      zero_driver (bench 32) = Ok (d', w')
    /\ lvl_lo_get (_inthl d') = Z.land 120 0xFF
    /\ lvl_lo_get (_intll d') = Z.land 40 0xFF
    /\ lvl_lo_get (_ihysl d') = Z.land 114 0xFF.
Proof.
  split; [repeat split; lia|].
  destruct (setInterruptLevels_default_whole_degrees 32 30 (F.float_of_int 10)
              zero_driver (bench 32) 40) as (d' & w' & E & H1 & H2 & H3 & _);
    [lia | lia | reflexivity |].
  exists d', w'. repeat split; assumption.
Defined.

(** ** Reads *)

(** X7: on a bus without faults, [getInterrupt buf size] reads
    [min(size, 8)] bytes at [0x10]: offset [j] of the buffer receives device
    register [0x10 + j] for [j < min(size, 8)], and the rest of the buffer
    is as it was. *)
Theorem getInterrupt_reads_flags (size : Z) (buf : list cell) (w : World) :
  faults w = [] -> 1 <= chunk w -> 0 <= size < 256 ->
  Z.min size 8 <= Z.of_nat (length buf) ->
  exists b w',
    getInterrupt buf size w = Ok (b, w')
    /\ (forall j, 0 <= j < Z.min size 8 ->
        b !! Z.to_nat j = Some (Some (regs w (AMG88xx_INT_OFFSET + j))))
    /\ drop (Z.to_nat (Z.min size 8)) b = drop (Z.to_nat (Z.min size 8)) buf
    /\ length b = length buf
    /\ read_post w AMG88xx_INT_OFFSET (Z.min size 8) w'.
Proof.
  intros Hf Hc Hs Hbuf. unfold getInterrupt.
  assert (Hmin : Int.min size (Int.uint8 8) = Z.min size 8).
  { unfold Int.min. change (Int.uint8 8) with 8.
    destruct (Z.ltb_spec size 8); lia. }
  rewrite Hmin. set (n := Z.min size 8) in *.
  assert (Hn : 0 <= n <= 8) by (unfold n; lia).
  destruct (read_ok AMG88xx_INT_OFFSET buf n w Hf Hc) as (w' & -> & Hpost);
    [unfold AMG88xx_INT_OFFSET; lia | lia | assumption |].
  eexists _, w'. split; [reflexivity|].
  split; [|split; [|split; [|assumption]]].
  - intros j Hj.
    rewrite lookup_app_l by (rewrite length_map, dev_bytes_length; lia).
    rewrite lookup_map, dev_bytes_lookup by lia. simpl.
    rewrite Z2Nat.id by lia.
    unfold AMG88xx_INT_OFFSET. rewrite uint8_small by lia. reflexivity.
  - rewrite drop_app_length' by (rewrite length_map, dev_bytes_length; lia).
    reflexivity.
  - rewrite length_app, length_map, dev_bytes_length, length_drop. lia.
Qed.

Lemma getInterrupt_reads_flags_witness :
  (faults (bench 7) = [] /\ 1 <= chunk (bench 7) /\ 0 <= 200 < 256
   /\ Z.min 200 8 <= Z.of_nat (length (repeat (@None Z) 8)))
  /\ exists b w',
    getInterrupt (repeat None 8) 200 (bench 7) = Ok (b, w')
    /\ (forall j, 0 <= j < Z.min 200 8 ->
        b !! Z.to_nat j = Some (Some (regs (bench 7) (AMG88xx_INT_OFFSET + j))))
    /\ drop (Z.to_nat (Z.min 200 8)) b = drop (Z.to_nat (Z.min 200 8)) (repeat None 8)
    /\ length b = length (repeat (@None Z) 8)
    /\ read_post (bench 7) AMG88xx_INT_OFFSET (Z.min 200 8) w'.
Proof.
  split; [repeat split; simpl; lia|].
  apply (getInterrupt_reads_flags 200 (repeat None 8) (bench 7));
    first [reflexivity | simpl; lia].
Defined.

(** X8: on a bus without faults, [read8 reg] returns the byte of device
    register [reg], also through an adapter that moves one byte at a
    time. *)
Theorem read8_returns_register (reg : Z) (w : World) :
  faults w = [] -> 1 <= chunk w -> 0 <= reg < 256 ->
  exists w', read8 reg w = Ok (regs w reg, w') /\ read_post w reg 1 w'.
Proof.
  intros Hf Hc Hreg. unfold read8, bind.
  destruct (read_raw reg 1 w Hf Hc Hreg ltac:(lia)) as (w' & Hrun & Hpost).
  change (repeat None (Z.to_nat 1)) with [@None Z] in Hrun. rewrite Hrun.
  unfold lift. rewrite load_some by (rewrite dev_bytes_length; lia).
  rewrite dev_bytes_nth by lia.
  change (Z.of_nat (Z.to_nat 0)) with 0. rewrite Z.add_0_r, uint8_small by lia.
  exists w'. split; [reflexivity | assumption].
Qed.

Lemma read8_returns_register_witness :
  (faults (bench 1) = [] /\ 1 <= chunk (bench 1) /\ 0 <= 0x04 < 256)
  /\ exists w', read8 0x04 (bench 1) = Ok (regs (bench 1) 0x04, w')
                /\ read_post (bench 1) 0x04 1 w'.
Proof.
  split; [repeat split; simpl; lia|].
  apply (read8_returns_register 0x04 (bench 1)); first [reflexivity | simpl; lia].
Defined.

Lemma read_chunks_empty_adapter (fuel : nat) :
  forall (reg num : Z) (buf : list cell) (w : World),
    1 <= num ->
    read_chunks fuel reg num 0 0 [] buf w = Err NoReturn.
Proof.
  induction fuel as [|fuel IH]; intros reg num buf w Hnum; [reflexivity|].
  cbn [read_chunks].
  replace (0 <? num) with true by (symmetry; apply Z.ltb_lt; lia).
  assert (Hnow : Int.min (Int.uint8 0) (Int.uint8 (num - 0)) = 0).
  { unfold Int.min. change (Int.uint8 0) with 0.
    pose proof (Z.mod_pos_bound (num - 0) 256 ltac:(lia)) as Hb.
    unfold Int.uint8. destruct (Z.ltb_spec 0 ((num - 0) mod 256)); lia. }
  rewrite Hnow.
  unfold bind, i2c_write, i2c_read, next_outcome, log, lift. simpl.
  destruct (faults w) as [|[|] [|[|] rest]]; simpl; apply IH; assumption.
Qed.

(** X9: with an adapter that reports a transaction size of 0, a read of
    one byte or more never returns: after any number of iterations the loop
    of [read] is still running. *)
Theorem read_never_returns_with_empty_adapter (reg num : Z) (buf : list cell) (w : World) :
  chunk w = 0 -> 1 <= num ->
  read reg buf num w = Err NoReturn
  /\ forall fuel,
       read_chunks fuel reg num (chunk w) 0 (repeat None (Z.to_nat (chunk w))) buf w
       = Err NoReturn.
Proof.
  intros Hc Hnum. unfold read, bind, maxBufferSize. rewrite Hc.
  replace (num <? 0) with false by (symmetry; apply Z.ltb_ge; lia).
  split; [|intros fuel]; apply read_chunks_empty_adapter; assumption.
Qed.

Lemma read_never_returns_with_empty_adapter_witness :
  (chunk (bench 0) = 0 /\ 1 <= 8)
  /\ read 0x10 (repeat None 8) 8 (bench 0) = Err NoReturn.
Proof.
  split; [split; [reflexivity | lia]|].
  apply (read_never_returns_with_empty_adapter 0x10 8 (repeat None 8) (bench 0));
    [reflexivity | lia].
Defined.

Lemma copy_chunk_length (n : nat) (i : Z) (rb buf out : list cell) (pos pos' : Z) :
  copy_chunk n i rb buf pos = Ok (out, pos') -> length out = length buf.
Proof.
  revert i buf pos. induction n as [|n IH]; intros i buf pos; cbn [copy_chunk].
  - intros [= <- <-]. reflexivity.
  - destruct (rb !! Z.to_nat i) as [c|]; [|discriminate].
    destruct (pos <? Z.of_nat (length buf)); [|discriminate].
    intros H. apply IH in H. rewrite length_insert in H. exact H.
Qed.

Lemma read_chunks_count (reg num : Z) (fuel : nat) :
  forall (pos : Z) (rb buf out : list cell) (w w' : World),
    faults w = [] -> 1 <= chunk w <= 255 -> 0 <= pos <= num -> num < 256 ->
    Z.of_nat (length rb) = chunk w -> num <= Z.of_nat (length buf) ->
    read_chunks fuel reg num (chunk w) pos rb buf w = Ok (out, w') ->
    exists evs,
      trace w' = trace w ++ evs
      /\ count_reads evs = (num - pos + chunk w - 1) / chunk w
      /\ full_chunks (chunk w) evs.
Proof.
  induction fuel as [|fuel IH]; intros pos rb buf out w w' Hf Hc Hpos Hnum Hrb Hbuf;
    [discriminate|].
  cbn [read_chunks].
  destruct (Z.ltb_spec pos num) as [Hlt|Hge].
  - unfold bind at 1.
    destruct (i2c_write_reg (Int.uint8 (reg + pos)) w Hf)
      as (w1 & -> & (A1 & C1 & R1 & F1) & Hp1 & Ht1).
    set (read_now := Int.min (Int.uint8 (chunk w)) (Int.uint8 (num - pos))).
    assert (Hrn : read_now = Z.min (chunk w) (num - pos)).
    { unfold read_now, Int.min. rewrite !uint8_small by lia.
      destruct (Z.ltb_spec (chunk w) (num - pos)); lia. }
    clearbody read_now.
    assert (Hf1 : faults w1 = []) by congruence.
    assert (Hlen1 : read_now <= Z.of_nat (length rb)) by lia.
    unfold bind at 1.
    destruct (i2c_read_ok "read_buffer" rb read_now w1 Hf1 Hlen1)
      as (w2 & -> & (A2 & C2 & R2 & F2) & Hp2 & Ht2).
    cbn [snd]. unfold bind at 1, lift at 1.
    destruct (copy_chunk _ _ _ _ _) as [[buf' pos']|e] eqn:Ecopy; [|discriminate].
    pose proof (copy_chunk_length _ _ _ _ _ _ _ Ecopy) as Hlen'.
    rewrite copy_chunk_ok in Ecopy;
      [| lia | rewrite length_app, length_map, dev_bytes_length, length_drop; lia
       | lia | lia | lia | lia].
    injection Ecopy as _ <-.
    cbn [fst snd].
    assert (Cw : chunk w2 = chunk w) by congruence.
    rewrite <- Cw. intros Hrun.
    apply IH in Hrun; try congruence; try lia.
    2:{ rewrite length_app, length_map, dev_bytes_length, length_drop. lia. }
    destruct Hrun as (evs & Ht3 & Hcnt & Hfull).
    exists ([I2CWrite [Int.uint8 (reg + pos)] true; I2CRead read_now] ++ evs).
    split; [rewrite Ht3, Ht2, Ht1, <- !app_assoc; reflexivity|].
    rewrite Cw in Hcnt, Hfull. rewrite Z2Nat.id in Hcnt by lia.
    rewrite ?Cw. cbn [app count_reads full_chunks].
    destruct (Z.le_gt_cases (chunk w) (num - pos)) as [Hfullc|Hlast].
    + replace read_now with (chunk w) in * by lia.
      split; [|split; [left; reflexivity | exact Hfull]].
      rewrite Hcnt.
      replace (num - pos + chunk w - 1)
        with (num - (pos + chunk w) + chunk w - 1 + 1 * chunk w) by lia.
      rewrite Z.div_add by lia. lia.
    + replace read_now with (num - pos) in * by lia.
      replace (num - (pos + (num - pos)) + chunk w - 1) with (chunk w - 1) in Hcnt by lia.
      rewrite (Z.div_small (chunk w - 1)) in Hcnt by lia.
      split; [|split; [right; split; [lia | exact Hcnt] | exact Hfull]].
      rewrite Hcnt.
      apply Z.div_unique with (r := num - pos - 1); lia.
  - unfold ret. intros [= <- <-]. exists []. rewrite app_nil_r.
    assert (pos = num) by lia. subst pos.
    replace (num - num + chunk w - 1) with (chunk w - 1) by lia.
    rewrite Z.div_small by lia. repeat split.
Qed.

(** X10: on a bus without faults, a read of [num] bytes through an adapter
    of size [C >= 1] makes one read request when [C > num] and
    [ceil(num / C)] read requests otherwise; every request asks for exactly
    [C] bytes, except that the last may ask for fewer. *)
Theorem read_transaction_count (reg num : Z) (buf : list cell) (w : World) :
  faults w = [] -> 1 <= chunk w -> 0 <= reg < 256 -> 0 <= num < 256 ->
  num <= Z.of_nat (length buf) ->
  exists out w' evs,
    read reg buf num w = Ok (out, w')
    /\ trace w' = trace w ++ evs
    /\ count_reads evs = (if num <? chunk w then 1 else (num + chunk w - 1) / chunk w)
    /\ full_chunks (chunk w) evs.
Proof.
  intros Hf Hc Hreg Hnum Hbuf.
  destruct (read_ok reg buf num w Hf Hc Hreg Hnum Hbuf) as (w' & Hrun & Hpost).
  eexists _, w'.
  destruct (Z.ltb_spec num (chunk w)) as [Hlt|Hge].
  - destruct Hpost as (_ & evs & Ht & _).
    assert (Hevs : evs = [I2CRead num]).
    { revert Hrun Ht. unfold read, bind at 1, maxBufferSize.
      replace (num <? chunk w) with true by (symmetry; apply Z.ltb_lt; lia).
      unfold bind at 1.
      destruct (i2c_write_reg reg w Hf) as (w1 & -> & (A1 & C1 & R1 & F1) & Hp1 & Ht1).
      unfold bind at 1.
      destruct (i2c_read_ok "buf" buf num w1 ltac:(congruence) Hbuf)
        as (w2 & -> & _ & _ & Ht2).
      unfold ret. intros [= _ <-]. rewrite Ht2, Ht1, <- app_assoc.
      intros H. apply app_inv_head in H. now injection H as <-. }
    subst evs. eexists. split; [exact Hrun|]. split; [exact Ht|].
    cbn. split; [reflexivity|]. split; [|exact I].
    right. lia.
  - pose proof Hrun as Hrun'.
    unfold read, bind at 1, maxBufferSize in Hrun'.
    replace (num <? chunk w) with false in Hrun' by (symmetry; apply Z.ltb_ge; lia).
    apply read_chunks_count in Hrun'; try lia; try assumption.
    2:{ rewrite repeat_length. lia. }
    destruct Hrun' as (evs & Ht & Hcnt & Hfull).
    exists evs. split; [exact Hrun|]. split; [exact Ht|].
    rewrite Z.sub_0_r in Hcnt. split; assumption.
Qed.

Lemma read_transaction_count_witness :
  (faults (bench 32) = [] /\ 1 <= chunk (bench 32) /\ 0 <= 0x80 < 256 /\ 0 <= 128 < 256
   /\ 128 <= Z.of_nat (length (repeat (@None Z) 128)))
  /\ exists out w' evs,
    read 0x80 (repeat None 128) 128 (bench 32) = Ok (out, w')
    /\ trace w' = trace (bench 32) ++ evs
    /\ count_reads evs = (if 128 <? chunk (bench 32) then 1
                          else (128 + chunk (bench 32) - 1) / chunk (bench 32))
    /\ full_chunks (chunk (bench 32)) evs.
Proof.
  split; [repeat split; simpl; lia|].
  apply (read_transaction_count 0x80 128 (repeat None 128) (bench 32));
    first [reflexivity | simpl; lia].
Defined.

Lemma read_single_failed (reg num : Z) (buf : list cell) (w : World)
    (o : bool) (rest : list bool) :
  num < chunk w -> faults w = o :: false :: rest ->
  exists w',
    read reg buf num w = Ok (buf, w')
    /\ faults w' = rest
    /\ trace w' = trace w ++ [I2CWrite [reg] true; I2CRead num].
Proof.
  intros Hc Hf. unfold read, bind at 1, maxBufferSize.
  replace (num <? chunk w) with true by (symmetry; apply Z.ltb_lt; lia).
  unfold bind, i2c_write, i2c_read, next_outcome, log, ret. simpl. rewrite Hf.
  destruct o; simpl; eexists; (split; [reflexivity|]); simpl;
    rewrite <- app_assoc; split; reflexivity.
Qed.

(** X11: through an adapter that moves more than eight bytes, and whatever
    the outcomes of the transactions, [getInterrupt] makes the same two
    requests, the write of [{0x10}] and one read of [min(size, 8)] bytes,
    and returns: a failed write of the register address does not stop the
    read, nothing is asked twice, and no failure reaches the caller. *)
Theorem getInterrupt_requests_whatever_the_outcome (size : Z) (buf : list cell) (w : World) :
  8 < chunk w -> Int.min size 8 <= Z.of_nat (length buf) ->
  exists out w',
    getInterrupt buf size w = Ok (out, w')
    /\ trace w' = trace w
         ++ [I2CWrite [AMG88xx_INT_OFFSET] true; I2CRead (Int.min size 8)].
Proof.
  intros Hc Hlen. unfold getInterrupt. change (Int.uint8 8) with 8.
  set (n := Int.min size 8) in *.
  assert (Hn : n <= 8) by (unfold n, Int.min; destruct (Z.ltb_spec size 8); lia).
  unfold read, bind at 1, maxBufferSize.
  replace (n <? chunk w) with true by (symmetry; apply Z.ltb_lt; lia).
  unfold bind, i2c_write, i2c_read, next_outcome, log, ret. simpl.
  apply Z.leb_le in Hlen as Hleb.
  destruct (faults w) as [|[|] [|[|] rest]]; simpl; rewrite ?Hleb;
    eexists _, _; (split; [reflexivity|]); simpl;
    rewrite <- app_assoc; reflexivity.
Qed.

Lemma getInterrupt_requests_whatever_the_outcome_witness :
  (8 < chunk (with_faults [false; false] (bench 32))
   /\ Int.min 8 8 <= Z.of_nat (length (repeat (Some 0xAA) 8)))
  /\ exists out w',
    getInterrupt (repeat (Some 0xAA) 8) 8 (with_faults [false; false] (bench 32))
    = Ok (out, w')
    /\ trace w' = trace (with_faults [false; false] (bench 32))
         ++ [I2CWrite [AMG88xx_INT_OFFSET] true; I2CRead (Int.min 8 8)].
Proof.
  split; [split; unfold Int.min; simpl; lia|].
  apply (getInterrupt_requests_whatever_the_outcome 8 (repeat (Some 0xAA) 8)
           (with_faults [false; false] (bench 32))); unfold Int.min; simpl; lia.
Defined.

(** X12: when that read transaction fails, [readThermistor] and
    [readPixels] (for one pixel or more) go on to convert bytes of their
    local array that were never assigned. *)
Theorem failed_read_leaves_raw_unassigned (n : Z) (buf : list F.float) (w : World)
    (o : bool) (rest : list bool) :
  128 < chunk w -> faults w = o :: false :: rest -> 1 <= n <= 64 ->
  readThermistor w = Err (Indeterminate "raw" 1)
  /\ readPixels buf n w = Err (Indeterminate "rawArray" 1).
Proof.
  intros Hc Hf Hn. split.
  - unfold readThermistor, bind at 1.
    destruct (read_single_failed AMG88xx_TTHL 2 [None; None] w o rest
                ltac:(lia) Hf) as (w' & -> & _).
    reflexivity.
  - unfold readPixels, bind at 1. rewrite pixel_bytes_small by lia.
    destruct (read_single_failed AMG88xx_PIXEL_OFFSET (2 * n)
                (repeat None (Z.to_nat (2 * n))) w o rest ltac:(lia) Hf) as (w' & -> & _).
    unfold lift.
    replace (Z.to_nat n) with (S (Z.to_nat (n - 1))) by lia.
    replace (Z.to_nat (2 * n)) with (S (S (Z.to_nat (2 * n - 2)))) by lia.
    reflexivity.
Qed.

Lemma failed_read_leaves_raw_unassigned_witness :
  (128 < chunk (with_faults [true; false] (bench 255))
   /\ faults (with_faults [true; false] (bench 255)) = [true; false] /\ 1 <= 64 <= 64)
  /\ readThermistor (with_faults [true; false] (bench 255)) = Err (Indeterminate "raw" 1)
  /\ readPixels (repeat F.pos_zero 64) 64 (with_faults [true; false] (bench 255))
     = Err (Indeterminate "rawArray" 1).
Proof.
  split; [split; [simpl; lia | split; [reflexivity | lia]]|].
  apply (failed_read_leaves_raw_unassigned 64 (repeat F.pos_zero 64)
           (with_faults [true; false] (bench 255)) true []);
    [simpl; lia | reflexivity | lia].
Defined.

(** ** Writes and mirrors *)

Lemma write8_stored (reg value : Z) (w : World) :
  faults w = [] ->
  exists w',
    write8 reg value w = Ok (tt, w')
    /\ regs w' reg = value /\ (forall a, a <> reg -> regs w' a = regs w a)
    /\ faults w' = [] /\ acks w' = acks w /\ chunk w' = chunk w
    /\ trace w' = trace w ++ [I2CWrite [reg; value] true].
Proof.
  intros Hf.
  unfold write8, write, bind, i2c_write, next_outcome, log, ret. simpl. rewrite Hf.
  eexists. split; [reflexivity|]. simpl.
  rewrite Z.eqb_refl. repeat split; auto.
  intros a Ha. destruct (Z.eqb_spec a reg); [contradiction | reflexivity].
Qed.

Lemma write8_failed (reg value : Z) (w : World) (rest : list bool) :
  faults w = false :: rest ->
  exists w',
    write8 reg value w = Ok (tt, w')
    /\ regs w' = regs w /\ faults w' = rest
    /\ trace w' = trace w ++ [I2CWrite [reg; value] true].
Proof.
  intros Hf.
  unfold write8, write, bind, i2c_write, next_outcome, log, ret. simpl. rewrite Hf.
  eexists. repeat split.
Qed.

(** X13: [clearInterrupt] sets the [RST] mirror to [FLAG_RESET] and requests
    the write [{0x01, 0x30}]; called again it leaves the mirrors as they
    are and requests the same write; the other mirrors are unchanged. *)
Theorem clearInterrupt_idempotent (d : Driver) (w : World) :
  exists d' w1 w2,
    clearInterrupt d w = Ok (d', w1)
    /\ clearInterrupt d' w1 = Ok (d', w2)
    /\ RST (_rst d') = AMG88xx_FLAG_RESET
    /\ same_but_rst d d'
    /\ trace w2 = trace w ++ [I2CWrite [AMG88xx_RST; AMG88xx_FLAG_RESET] true;
                              I2CWrite [AMG88xx_RST; AMG88xx_FLAG_RESET] true].
Proof.
  set (d' := set_rst {| RST := bits8 AMG88xx_FLAG_RESET |} d).
  assert (Hrun : forall v, exists v',
             clearInterrupt d v = Ok (d', v')
             /\ trace v' = trace v ++ [I2CWrite [AMG88xx_RST; AMG88xx_FLAG_RESET] true]).
  { intros v. unfold clearInterrupt, bind.
    match goal with |- context [write8 ?r ?x v] =>
      destruct (write8_logged r x v) as (v' & -> & T & _) end.
    exists v'. split; [reflexivity | exact T]. }
  destruct (Hrun w) as (w1 & E1 & T1).
  assert (Hagain : clearInterrupt d' = clearInterrupt d) by reflexivity.
  destruct (Hrun w1) as (w2 & E2 & T2).
  exists d', w1, w2. split; [assumption|].
  split; [rewrite Hagain; assumption|].
  split; [reflexivity|]. split; [repeat split|].
  rewrite T2, T1, <- app_assoc. reflexivity.
Qed.

(** X14: for a mode 0 or 1, [setInterruptMode] followed by
    [enableInterrupt] and [enableInterrupt] followed by [setInterruptMode]
    leave the same mirrors, and the byte of the [INTC] mirror is then
    [2 * mode + 1]. *)
Theorem interrupt_enable_and_mode_commute (mode : Z) (d : Driver) (w : World) :
  0 <= mode <= 1 ->
  exists d1 d2 e1 w1 w2 u1 u2,
    setInterruptMode mode d w = Ok (d1, w1) /\ enableInterrupt d1 w1 = Ok (d2, w2)
    /\ enableInterrupt d w = Ok (e1, u1) /\ setInterruptMode mode e1 u1 = Ok (d2, u2)
    /\ intc_get (_intc d2) = 2 * mode + 1
    /\ trace w2 = trace w
         ++ [I2CWrite [AMG88xx_INTC; 2 * mode + Z.b2z (INTEN (_intc d))] true;
             I2CWrite [AMG88xx_INTC; 2 * mode + 1] true].
Proof.
  intros Hmode.
  assert (Hset : forall m x v, exists v',
     setInterruptMode m x v
     = Ok (set_intc {| INTEN := INTEN (_intc x); INTMOD := bit1 m |} x, v')
     /\ trace v' = trace v
          ++ [I2CWrite [AMG88xx_INTC;
                        intc_get {| INTEN := INTEN (_intc x); INTMOD := bit1 m |}] true]).
  { intros m x v. unfold setInterruptMode, bind.
    match goal with |- context [write8 ?r ?b v] =>
      destruct (write8_logged r b v) as (v' & -> & T & _) end.
    exists v'. split; [reflexivity | exact T]. }
  assert (Hen : forall x v, exists v',
     enableInterrupt x v
     = Ok (set_intc {| INTEN := true; INTMOD := INTMOD (_intc x) |} x, v')
     /\ trace v' = trace v
          ++ [I2CWrite [AMG88xx_INTC;
                        intc_get {| INTEN := true; INTMOD := INTMOD (_intc x) |}] true]).
  { intros x v. unfold enableInterrupt, bind.
    match goal with |- context [write8 ?r ?b v] =>
      destruct (write8_logged r b v) as (v' & -> & T & _) end.
    exists v'. split; [reflexivity | exact T]. }
  destruct (Hset mode d w) as (w1 & E1 & T1).
  destruct (Hen (set_intc {| INTEN := INTEN (_intc d); INTMOD := bit1 mode |} d) w1)
    as (w2 & E2 & T2).
  destruct (Hen d w) as (u1 & F1 & _).
  destruct (Hset mode (set_intc {| INTEN := true; INTMOD := INTMOD (_intc d) |} d) u1)
    as (u2 & F2 & _).
  eexists _, _, _, w1, w2, u1, u2.
  split; [exact E1|]. split; [exact E2|]. split; [exact F1|]. split; [exact F2|].
  assert (mode = 0 \/ mode = 1) as [-> | ->] by lia;
    (split; [reflexivity|]); rewrite T2, T1, <- app_assoc;
    cbn; destruct (INTEN (_intc d)); reflexivity.
Qed.

Lemma interrupt_enable_and_mode_commute_witness :
  0 <= 1 <= 1
  /\ exists d1 d2 e1 w1 w2 u1 u2,
    setInterruptMode 1 zero_driver (bench 32) = Ok (d1, w1)
    /\ enableInterrupt d1 w1 = Ok (d2, w2)
    /\ enableInterrupt zero_driver (bench 32) = Ok (e1, u1)
    /\ setInterruptMode 1 e1 u1 = Ok (d2, u2)
    /\ intc_get (_intc d2) = 2 * 1 + 1
    /\ trace w2 = trace (bench 32)
         ++ [I2CWrite [AMG88xx_INTC; 2 * 1 + Z.b2z (INTEN (_intc zero_driver))] true;
             I2CWrite [AMG88xx_INTC; 2 * 1 + 1] true].
Proof.
  split; [lia|].
  apply (interrupt_enable_and_mode_commute 1 zero_driver (bench 32)). lia.
Defined.

(** X15, the witness of [begin_init_failure]: no device answers at [0x68]
    on the bench. *)
Lemma begin_init_failure_witness :
  acks (bench 32) 0x68 = false
  /\ begin 0x68 zero_driver (bench 32) = Ok ((false, zero_driver), log (I2CBegin 0x68) (bench 32)).
Proof.
  split; [reflexivity | apply (begin_init_failure 0x68 zero_driver (bench 32)); reflexivity].
Defined.

(** X16: after a successful [begin] the mirrors of [PCTL], [RST] and [FPSC]
    hold [NORMAL_MODE], [INITIAL_RESET] and [FPS_10] and [INTEN] is clear;
    [INTMOD], the [AVE] mirror and the six threshold mirrors are as they
    were; a second successful [begin] leaves the mirrors as the first left
    them. *)
Theorem begin_mirror_state (addr : Z) (d : Driver) (w : World) :
  acks w addr = true ->
  exists d' w',
    begin addr d w = Ok ((true, d'), w')
    /\ pctl_get (_pctl d') = AMG88xx_NORMAL_MODE
    /\ rst_get (_rst d') = AMG88xx_INITIAL_RESET
    /\ INTEN (_intc d') = false
    /\ fpsc_get (_fpsc d') = AMG88xx_FPS_10
    /\ same_but_begin d d'
    /\ (forall v, acks v addr = true -> exists v', begin addr d' v = Ok ((true, d'), v')).
Proof.
  intros Hack.
  assert (Hrun : forall x v, acks v addr = true -> exists v',
    begin addr x v
    = Ok ((true,
           set_fpsc {| FPS := bit1 AMG88xx_FPS_10 |}
             (set_intc {| INTEN := bit1 0; INTMOD := INTMOD (_intc x) |}
                (set_rst {| RST := bits8 AMG88xx_INITIAL_RESET |}
                   (set_pctl {| PCTL := bits8 AMG88xx_NORMAL_MODE |} x)))), v')).
  { intros x v Hv. unfold begin, bind at 1, i2c_begin. rewrite Hv. cbn [negb].
    unfold bind at 1.
    match goal with |- context [write8 ?r ?b ?u] =>
      destruct (write8_logged r b u) as (v1 & -> & _) end.
    unfold bind at 1.
    match goal with |- context [write8 ?r ?b v1] =>
      destruct (write8_logged r b v1) as (v2 & -> & _) end.
    unfold bind at 1, disableInterrupt, bind at 1.
    match goal with |- context [write8 ?r ?b v2] =>
      destruct (write8_logged r b v2) as (v3 & -> & _) end.
    unfold ret at 1. unfold bind at 1.
    match goal with |- context [write8 ?r ?b v3] =>
      destruct (write8_logged r b v3) as (v4 & -> & _) end.
    unfold bind at 1. rewrite delay_logged. unfold ret.
    eexists. reflexivity. }
  destruct (Hrun d w Hack) as (w' & E).
  set (d' := set_fpsc {| FPS := bit1 AMG88xx_FPS_10 |}
               (set_intc {| INTEN := bit1 0; INTMOD := INTMOD (_intc d) |}
                  (set_rst {| RST := bits8 AMG88xx_INITIAL_RESET |}
                     (set_pctl {| PCTL := bits8 AMG88xx_NORMAL_MODE |} d)))) in *.
  exists d', w'. split; [exact E|].
  repeat split.
  intros v Hv. destruct (Hrun d' v Hv) as (v' & E'). exists v'. exact E'.
Qed.

Lemma begin_mirror_state_witness :
  acks (bench 32) 0x69 = true
  /\ exists d' w',
    begin 0x69 zero_driver (bench 32) = Ok ((true, d'), w')
    /\ pctl_get (_pctl d') = AMG88xx_NORMAL_MODE
    /\ rst_get (_rst d') = AMG88xx_INITIAL_RESET
    /\ INTEN (_intc d') = false
    /\ fpsc_get (_fpsc d') = AMG88xx_FPS_10
    /\ same_but_begin zero_driver d'
    /\ (forall v, acks v 0x69 = true -> exists v', begin 0x69 d' v = Ok ((true, d'), v')).
Proof.
  split; [reflexivity|].
  apply (begin_mirror_state 0x69 zero_driver (bench 32)). reflexivity.
Defined.

(** X18: when its write fails, [enableInterrupt] returns all the same with
    [INTEN] set in the mirror, while the device keeps every register as it
    was: the mirror then differs from the device. *)
Theorem enableInterrupt_failed_write (d : Driver) (w : World) (rest : list bool) :
  faults w = false :: rest ->
  exists d' w',
    enableInterrupt d w = Ok (d', w')
    /\ INTEN (_intc d') = true
    /\ regs w' = regs w
    /\ trace w' = trace w ++ [I2CWrite [AMG88xx_INTC; intc_get (_intc d')] true].
Proof.
  intros Hf. unfold enableInterrupt, bind.
  match goal with |- context [write8 ?r ?b w] =>
    destruct (write8_failed r b w rest Hf) as (w' & -> & R & _ & T) end.
  unfold ret. eexists _, w'. repeat split; assumption.
Qed.

Lemma enableInterrupt_failed_write_witness :
  faults (with_faults [false] (bench 32)) = [false]
  /\ exists d' w',
    enableInterrupt zero_driver (with_faults [false] (bench 32)) = Ok (d', w')
    /\ INTEN (_intc d') = true
    /\ regs w' = regs (with_faults [false] (bench 32))
    /\ trace w' = trace (with_faults [false] (bench 32))
         ++ [I2CWrite [AMG88xx_INTC; intc_get (_intc d')] true].
Proof.
  split; [reflexivity|].
  apply (enableInterrupt_failed_write zero_driver (with_faults [false] (bench 32)) []).
  reflexivity.
Defined.

(** X19: on a bus without faults, after [enableInterrupt],
    [disableInterrupt], [setInterruptMode] or [setMovingAverageMode] the
    configuration register written ([INTC] or [AVE]) holds the byte of its
    mirror, and every other device register is as it was. *)
Theorem mirror_written_to_device (mode : Z) (on : bool) (d : Driver) (w : World) :
  faults w = [] ->
  (exists d' w', enableInterrupt d w = Ok (d', w')
     /\ regs w' AMG88xx_INTC = intc_get (_intc d')
     /\ forall a, a <> AMG88xx_INTC -> regs w' a = regs w a)
  /\ (exists d' w', disableInterrupt d w = Ok (d', w')
     /\ regs w' AMG88xx_INTC = intc_get (_intc d')
     /\ forall a, a <> AMG88xx_INTC -> regs w' a = regs w a)
  /\ (exists d' w', setInterruptMode mode d w = Ok (d', w')
     /\ regs w' AMG88xx_INTC = intc_get (_intc d')
     /\ forall a, a <> AMG88xx_INTC -> regs w' a = regs w a)
  /\ (exists d' w', setMovingAverageMode on d w = Ok (d', w')
     /\ regs w' AMG88xx_AVE = ave_get (_ave d')
     /\ forall a, a <> AMG88xx_AVE -> regs w' a = regs w a).
Proof.
  intros Hf.
  repeat apply conj;
    unfold enableInterrupt, disableInterrupt, setInterruptMode,
      setMovingAverageMode, bind;
    match goal with |- context [write8 ?r ?b w] =>
      destruct (write8_stored r b w Hf) as (w' & -> & S & O & _) end;
    unfold ret; eexists _, w'; (split; [reflexivity|]); split; assumption.
Qed.

Lemma mirror_written_to_device_witness :
  faults (bench 32) = []
  /\ exists d' w', enableInterrupt zero_driver (bench 32) = Ok (d', w')
     /\ regs w' AMG88xx_INTC = intc_get (_intc d')
     /\ forall a, a <> AMG88xx_INTC -> regs w' a = regs (bench 32) a.
Proof.
  split; [reflexivity|].
  apply (mirror_written_to_device 0 false zero_driver (bench 32)). reflexivity.
Defined.
